(** * Ghost AI: adaptive routing, generation and streaming pipeline

    A shallow embedding of [backend/ai.py] (intent classifier, tier selector,
    overload guard, routing coordinator, generation orchestrator) and of the
    frame emitter of [backend/main.py] ([event_stream]), with the properties
    of the design document stated and proved over it.

    Conventions of the embedding:
    - a Python [str] is a [string]; each character is a code point in
      0..255, and the character classes below are Python's for that range;
    - Python integers are [Z]; lengths are [Z.of_nat (length _)];
    - readings of [time.monotonic()] (float seconds) are rationals [Q];
    - an exception is an explicit error result ([option]);
    - the guard object is a record threaded through the calls (the lock
      makes each call's read-modify-write atomic, so calls are sequential
      state transformers). *)

From Stdlib Require Import Bool Arith ZArith QArith Lia Lqa List Ascii String.
Import ListNotations.

Open Scope string_scope.

(** ** Characters and Python string operations *)

Module PyStr.

Definition code (c : ascii) : nat := nat_of_ascii c.

Definition between (lo hi n : nat) : bool := (lo <=? n)%nat && (n <=? hi)%nat.

(** [str.isspace] on one character, code points 0..255. *)
Definition is_space (c : ascii) : bool :=
  let n := code c in
  between 9 13 n || between 28 32 n || (n =? 133)%nat || (n =? 160)%nat.

(** The class [\w] of [re] on [str] patterns, code points 0..255. *)
Definition is_word (c : ascii) : bool :=
  let n := code c in
  between 48 57 n || between 65 90 n || (n =? 95)%nat || between 97 122 n
  || (n =? 170)%nat || between 178 179 n || (n =? 181)%nat
  || between 185 186 n || between 188 190 n
  || between 192 214 n || between 216 246 n || between 248 255 n.

Definition is_upper_ascii (c : ascii) : bool := between 65 90 (code c).

(** Case folding as [re.IGNORECASE] applies it against ASCII letters. *)
Definition lower (c : ascii) : ascii :=
  if is_upper_ascii c then ascii_of_nat (code c + 32) else c.

Definition eqb_ci (a c : ascii) : bool := Ascii.eqb (lower a) (lower c).

Definition is_empty (s : string) : bool :=
  match s with EmptyString => true | String _ _ => false end.

Definition head (s : string) : option ascii :=
  match s with EmptyString => None | String c _ => Some c end.

Definition len (s : string) : Z := Z.of_nat (String.length s).

(** [s.lstrip()] *)
Fixpoint lstrip (s : string) : string :=
  match s with
  | EmptyString => EmptyString
  | String c s' => if is_space c then lstrip s' else s
  end.

(** [s.rstrip()] *)
Fixpoint rstrip (s : string) : string :=
  match s with
  | EmptyString => EmptyString
  | String c s' =>
      match rstrip s' with
      | EmptyString => if is_space c then EmptyString else String c EmptyString
      | r => String c r
      end
  end.

(** [s.strip()] *)
Definition strip (s : string) : string := rstrip (lstrip s).

(** [s.split()]: the maximal runs of non-whitespace characters. *)
Fixpoint split_ws (s : string) : list string :=
  match s with
  | EmptyString => []
  | String c s' =>
      if is_space c then split_ws s'
      else match s' with
           | EmptyString => [String c EmptyString]
           | String d _ =>
               if is_space d then String c EmptyString :: split_ws s'
               else match split_ws s' with
                    | w :: ws => String c w :: ws
                    | [] => [String c EmptyString]
                    end
           end
  end.

(** [s.split(sep)] for a one-character separator: empty fields are kept. *)
Fixpoint split_on (sep : ascii) (s : string) : list string :=
  match s with
  | EmptyString => [EmptyString]
  | String c s' =>
      if Ascii.eqb c sep then EmptyString :: split_on sep s'
      else match split_on sep s' with
           | w :: ws => String c w :: ws
           | [] => [String c EmptyString]
           end
  end.

(** [sep.join(ws)] *)
Fixpoint join (sep : string) (ws : list string) : string :=
  match ws with
  | [] => EmptyString
  | [w] => w
  | w :: ws' => w ++ sep ++ join sep ws'
  end.

(** [s[:n]] *)
Fixpoint take (n : nat) (s : string) : string :=
  match n, s with
  | O, _ => EmptyString
  | _, EmptyString => EmptyString
  | S n', String c s' => String c (take n' s')
  end.

(** [s.endswith(c)] for a one-character suffix. *)
Fixpoint ends_with_char (c : ascii) (s : string) : bool :=
  match s with
  | EmptyString => false
  | String d EmptyString => Ascii.eqb d c
  | String _ s' => ends_with_char c s'
  end.

End PyStr.

(** ** Keyword patterns: [\b(w1|...|wn)\b] under [re.IGNORECASE] *)

Module Re.
Import PyStr.

(** A compiled pattern is the list of its alternatives. *)
Definition pattern := list string.

Definition is_word_opt (o : option ascii) : bool :=
  match o with None => false | Some c => is_word c end.

(** [\b] between the character before ([prev]) and the one after ([next]);
    a missing neighbour (either end of the text) counts as a non-word. *)
Definition boundary (prev next : option ascii) : bool :=
  xorb (is_word_opt prev) (is_word_opt next).

(** The alternative [w], then the closing [\b], against a prefix of [s];
    [last] is the character just before the current position. *)
Fixpoint match_lit (w : string) (last : option ascii) (s : string) : bool :=
  match w with
  | EmptyString => boundary last (head s)
  | String a w' =>
      match s with
      | EmptyString => false
      | String c s' => eqb_ci a c && match_lit w' (Some c) s'
      end
  end.

(** The whole pattern anchored at the current position. *)
Definition match_at (p : pattern) (prev : option ascii) (s : string) : bool :=
  boundary prev (head s) && existsb (fun w => match_lit w prev s) p.

(** [pattern.search]: some position of the text, the end included. *)
Fixpoint search_from (p : pattern) (prev : option ascii) (s : string) : bool :=
  match_at p prev s
  || match s with
     | EmptyString => false
     | String c s' => search_from p (Some c) s'
     end.

Definition search (p : pattern) (s : string) : bool := search_from p None s.

End Re.

(** ** Constants of [backend/ai.py] *)

Definition TIER_LIGHT := "tier_light".
Definition TIER_STANDARD := "tier_standard".
Definition TIER_REASONING := "tier_reasoning".
Definition TIER_VISION := "tier_vision".

Definition INTENT_CASUAL_CHAT := "casual_chat".
Definition INTENT_KNOWLEDGE_QUESTION := "knowledge_question".
Definition INTENT_CODING_TASK := "coding_task".
Definition INTENT_DEBUGGING := "debugging".
Definition INTENT_IMAGE_ANALYSIS := "image_analysis".
Definition INTENT_EMOTIONAL_SUPPORT := "emotional_support".
Definition INTENT_UNKNOWN := "unknown".

(** [tier in STRONG_TIERS] *)
Definition in_STRONG_TIERS (tier : string) : bool :=
  String.eqb tier TIER_REASONING || String.eqb tier TIER_VISION.

Definition GREETING_PATTERN : Re.pattern :=
  ["hi"; "hello"; "hey"; "yo"; "good morning"; "good evening"; "sup";
   "thanks"; "thank you"].
Definition KNOWLEDGE_PATTERN : Re.pattern :=
  ["what"; "why"; "how"; "explain"; "difference"; "define"; "learn";
   "tutorial"; "guide"; "concept"].
Definition CODING_PATTERN : Re.pattern :=
  ["code"; "function"; "api"; "algorithm"; "class"; "python"; "javascript";
   "typescript"; "sql"; "react"; "fastapi"; "refactor"; "implement"].
Definition DEBUG_PATTERN : Re.pattern :=
  ["debug"; "bug"; "error"; "traceback"; "stack"; "exception"; "crash";
   "failing"; "failure"; "fix"; "log"].
Definition IMAGE_PATTERN : Re.pattern :=
  ["image"; "photo"; "screenshot"; "picture"; "diagram"; "scan"; "ocr";
   "visual"].
Definition EMOTIONAL_PATTERN : Re.pattern :=
  ["sad"; "anxious"; "depressed"; "lonely"; "stressed"; "panic";
   "overwhelmed"; "grief"; "burnout"].

(** ** Intent classifier and tier selector *)

Definition detect_intent (message : string) : string :=
  let text := PyStr.strip message in
  if PyStr.is_empty text then INTENT_UNKNOWN
  else if Re.search IMAGE_PATTERN text then INTENT_IMAGE_ANALYSIS
  else if Re.search DEBUG_PATTERN text then INTENT_DEBUGGING
  else if Re.search CODING_PATTERN text then INTENT_CODING_TASK
  else if Re.search EMOTIONAL_PATTERN text then INTENT_EMOTIONAL_SUPPORT
  else if (PyStr.len text <=? 60)%Z && Re.search GREETING_PATTERN text
       then INTENT_CASUAL_CHAT
  else if Re.search KNOWLEDGE_PATTERN text || PyStr.ends_with_char "?" text
       then INTENT_KNOWLEDGE_QUESTION
  else if (Z.of_nat (List.length (PyStr.split_ws text)) <=? 10)%Z
          && Re.search GREETING_PATTERN text
       then INTENT_CASUAL_CHAT
  else INTENT_UNKNOWN.

Definition select_model (intent : string) (message_length : Z) : string :=
  if (message_length >? 2000)%Z then TIER_REASONING
  else if String.eqb intent INTENT_CASUAL_CHAT then TIER_LIGHT
  else if String.eqb intent INTENT_KNOWLEDGE_QUESTION then TIER_STANDARD
  else if String.eqb intent INTENT_CODING_TASK
          || String.eqb intent INTENT_DEBUGGING then TIER_REASONING
  else if String.eqb intent INTENT_IMAGE_ANALYSIS then TIER_VISION
  else if String.eqb intent INTENT_EMOTIONAL_SUPPORT then TIER_STANDARD
  else TIER_STANDARD.

(** ** Data model *)

Record RouteDecision := mkRouteDecision {
  intent : string;
  model_tier : string;
  message_length : Z;
  decision_ms : Q;
  downgraded : bool;
  reason : option string
}.

Record ResponseEnvelope := mkResponseEnvelope {
  text : string;
  route_of : RouteDecision;
  response_ms : Q;
  fallback_used : bool
}.

(** The guard object: the three configuration fields of [__init__] and the
    two mutable fields; [strong_requests] is the deque, oldest first. *)
Record AdaptiveModelOptimizer := mkOptimizer {
  max_consecutive_strong : Z;
  spike_threshold : Z;
  spike_window_seconds : Z;
  consecutive_strong : Z;
  strong_requests : list Q
}.

(** [AdaptiveModelOptimizer(m, s, w)] *)
Definition new_optimizer (m s w : Z) : AdaptiveModelOptimizer :=
  mkOptimizer m s w 0 [].

Definition default_optimizer : AdaptiveModelOptimizer := new_optimizer 3 10 60.

Definition Qltb (a b : Q) : bool := negb (Qle_bool b a).

(** Elapsed milliseconds between two [perf_counter_ns] readings. *)
Definition elapsed_ms (start_ns end_ns : Z) : Q := (end_ns - start_ns) # 1000000.

(** The clock readings one [route] call makes. *)
Record RouteClock := mkRouteClock {
  start_ns : Z;   (* perf_counter_ns() on entry *)
  now : Q;        (* time.monotonic() *)
  end_ns : Z      (* perf_counter_ns() on exit *)
}.

(** ** Overload guard *)

(** The [while] loop of [_expire_old_spike_events]: pop from the left while
    the oldest reading is below the threshold. *)
Fixpoint popleft_while_below (threshold : Q) (q : list Q) : list Q :=
  match q with
  | [] => []
  | t :: q' => if Qltb t threshold then popleft_while_below threshold q' else q
  end.

Definition _expire_old_spike_events (self : AdaptiveModelOptimizer) (now : Q)
  : AdaptiveModelOptimizer :=
  let threshold := now - inject_Z (spike_window_seconds self) in
  mkOptimizer (max_consecutive_strong self) (spike_threshold self)
    (spike_window_seconds self) (consecutive_strong self)
    (popleft_while_below threshold (strong_requests self)).

(** What the body of [with self._lock:] leaves in the locals. *)
Record Admission := mkAdmission {
  adm_tier : string;
  adm_downgraded : bool;
  adm_reason : option string
}.

(** The critical section of [route]: prune, check both limits, update. *)
Definition locked_section (self : AdaptiveModelOptimizer)
  (selected_tier : string) (now : Q) : Admission * AdaptiveModelOptimizer :=
  let self1 := _expire_old_spike_events self now in
  let adm :=
    if in_STRONG_TIERS selected_tier then
      if (consecutive_strong self1 >=? max_consecutive_strong self1)%Z then
        mkAdmission TIER_STANDARD true (Some "consecutive_strong_limit")
      else if (Z.of_nat (List.length (strong_requests self1))
               >=? spike_threshold self1)%Z then
        mkAdmission TIER_STANDARD true (Some "usage_spike")
      else mkAdmission selected_tier false None
    else mkAdmission selected_tier false None in
  let self2 :=
    if in_STRONG_TIERS (adm_tier adm) then
      mkOptimizer (max_consecutive_strong self1) (spike_threshold self1)
        (spike_window_seconds self1) (consecutive_strong self1 + 1)
        (strong_requests self1 ++ [now])
    else
      mkOptimizer (max_consecutive_strong self1) (spike_threshold self1)
        (spike_window_seconds self1) 0 (strong_requests self1) in
  (adm, self2).

(** ** Routing coordinator *)

Section Routing.

(** The two calls inside the [try] block, each of which either returns or
    raises ([None]); [route] itself is the instance where neither raises. *)
Variable classify : string -> option string.
Variable choose : string -> Z -> option string.

Definition route_with (self : AdaptiveModelOptimizer) (message : string)
  (has_image : bool) (clk : RouteClock)
  : RouteDecision * AdaptiveModelOptimizer :=
  let normalized := PyStr.strip message in
  let message_length := PyStr.len normalized in
  let ms := elapsed_ms (start_ns clk) (end_ns clk) in
  let failed :=
    (mkRouteDecision INTENT_UNKNOWN TIER_STANDARD message_length ms false
       (Some "routing_failure"), self) in
  match classify normalized with
  | None => failed
  | Some detected =>
      let intent := if has_image then INTENT_IMAGE_ANALYSIS else detected in
      match choose intent message_length with
      | None => failed
      | Some selected_tier =>
          let '(adm, self') := locked_section self selected_tier (now clk) in
          (mkRouteDecision intent (adm_tier adm) message_length ms
             (adm_downgraded adm) (adm_reason adm), self')
      end
  end.

End Routing.

Definition route (self : AdaptiveModelOptimizer) (message : string)
  (has_image : bool) (clk : RouteClock)
  : RouteDecision * AdaptiveModelOptimizer :=
  route_with (fun m => Some (detect_intent m))
             (fun i n => Some (select_model i n)) self message has_image clk.

Definition failsafe_decision (message : string) (why : string) : RouteDecision :=
  mkRouteDecision (detect_intent message) TIER_STANDARD
    (PyStr.len (PyStr.strip message)) 0 false (Some why).

(** A sequence of calls on one guard: the decisions in call order and the
    guard they leave behind. *)
Record Request := mkRequest {
  req_message : string;
  req_has_image : bool;
  req_clock : RouteClock
}.

Fixpoint route_all (self : AdaptiveModelOptimizer) (reqs : list Request)
  : list RouteDecision * AdaptiveModelOptimizer :=
  match reqs with
  | [] => ([], self)
  | r :: reqs' =>
      let '(d, self1) := route self (req_message r) (req_has_image r) (req_clock r) in
      let '(ds, self2) := route_all self1 reqs' in
      (d :: ds, self2)
  end.

(** ** Generation orchestrator *)

(** [image_context: dict | None]; only its truth value is ever used. *)
Definition ImageContext := option (list (string * string)).

Definition truthy (image_context : ImageContext) : bool :=
  match image_context with
  | None => false
  | Some [] => false
  | Some (_ :: _) => true
  end.

(** The arguments of one provider invocation. *)
Record ProviderCall := mkProviderCall {
  call_tier : string;
  call_message : string;
  call_image_context : ImageContext;
  call_intent : string;
  call_force_stable : bool
}.

Definition dquote : string := String (ascii_of_nat 34) EmptyString.

Definition FALLBACK_TEXT :=
  "Ghost fallback: assistant core is online. Please retry in a moment.".

Definition EMPTY_MESSAGE_TEXT :=
  "Ghost is active. Standard assistance mode enabled. Share your task and constraints.".

(** The preamble chosen by the [if]/[elif] chain on the intent. *)
Definition body_of (intent : string) (image_context : ImageContext) : string :=
  if String.eqb intent INTENT_DEBUGGING then
    "Technical assistant mode enabled. Share logs, expected behavior, and minimal reproduction steps. "
  else if String.eqb intent INTENT_CODING_TASK then
    "Implementation mode enabled. I will provide concise and reliable coding guidance. "
  else if String.eqb intent INTENT_IMAGE_ANALYSIS || truthy image_context then
    "Image analysis mode enabled. I can inspect text, structure, and visible anomalies from the upload. "
  else if String.eqb intent INTENT_EMOTIONAL_SUPPORT then
    "Support mode enabled. I will keep guidance calm, practical, and non-judgmental. "
  else if String.eqb intent INTENT_CASUAL_CHAT then
    "Light conversation mode enabled. "
  else "Standard assistance mode enabled. ".

(** [_provider_generate]; [draw] is the outcome of [random.random() < 0.01],
    consulted only when [force_stable] is false; [None] is the raised
    [RuntimeError]. The tier only selects a sleep. *)
Definition _provider_generate (draw : bool) (c : ProviderCall) : option string :=
  if negb (call_force_stable c) && draw then None
  else
    let normalized :=
      PyStr.strip (PyStr.join " " (PyStr.split_ws (call_message c))) in
    if negb (PyStr.is_empty normalized) then
      Some ("Ghost is active. " ++ body_of (call_intent c) (call_image_context c)
            ++ "Focus: " ++ dquote ++ PyStr.take 180 normalized ++ dquote ++ ".")
    else Some EMPTY_MESSAGE_TEXT.

(** What one call of the orchestrator needs from its environment: the guard
    and the clock readings of the routing call it may make, and its own two
    [perf_counter_ns] readings. *)
Record GenClock := mkGenClock {
  gen_route_clock : RouteClock;
  gen_start_ns : Z;
  gen_end_ns : Z
}.

Section Orchestrator.

(** The provider capability: a result or a raised exception per call. *)
Variable provider : ProviderCall -> option string.

(** The [try]/[except] nest: text, [fallback_used], and the provider
    invocations made, in order. *)
Definition attempt (selected_route : RouteDecision) (message : string)
  (image_context : ImageContext) : string * bool * list ProviderCall :=
  let first := mkProviderCall (model_tier selected_route) message
                 image_context (intent selected_route) false in
  match provider first with
  | Some response_text => (response_text, false, [first])
  | None =>
      let retry := mkProviderCall TIER_STANDARD message image_context
                     (intent selected_route) true in
      match provider retry with
      | Some response_text => (response_text, true, [first; retry])
      | None => (FALLBACK_TEXT, true, [first; retry])
      end
  end.

Definition generate_ai_response_with (message : string)
  (image_context : ImageContext) (optimizer : AdaptiveModelOptimizer)
  (route_arg : option RouteDecision) (clk : GenClock)
  : ResponseEnvelope * AdaptiveModelOptimizer * list ProviderCall :=
  let has_image := truthy image_context in
  let '(selected_route, optimizer') :=
    match route_arg with
    | Some r => (r, optimizer)
    | None => route optimizer message has_image (gen_route_clock clk)
    end in
  let '(response_text, fallback, calls) :=
    attempt selected_route message image_context in
  (mkResponseEnvelope response_text selected_route
     (elapsed_ms (gen_start_ns clk) (gen_end_ns clk)) fallback,
   optimizer', calls).

End Orchestrator.

Definition generate_ai_response (draw : bool) (message : string)
  (image_context : ImageContext) (optimizer : AdaptiveModelOptimizer)
  (route_arg : option RouteDecision) (clk : GenClock)
  : ResponseEnvelope * AdaptiveModelOptimizer * list ProviderCall :=
  generate_ai_response_with (_provider_generate draw) message image_context
    optimizer route_arg clk.

(** ** Streaming emitter *)

Record ModerationResult := mkModerationResult {
  display_text : string;
  original_text : string;
  moderated : bool
}.

(** A frame is an event name with its payload ([_sse(event, data)]). *)
Inductive Frame :=
| Meta (debug_mode show_image_tools : bool)
| Chunk (chunk_text : string)
| Done (done_moderated : bool) (masked_text : string) (raw_text : option string).

Definition is_meta (f : Frame) : bool :=
  match f with Meta _ _ => true | _ => false end.
Definition is_chunk (f : Frame) : bool :=
  match f with Chunk _ => true | _ => false end.
Definition is_done (f : Frame) : bool :=
  match f with Done _ _ _ => true | _ => false end.

(** The [for word in display_text.split(" ")] loop. *)
Definition chunk_frames (display : string) : list Frame :=
  map (fun word => Chunk (word ++ " ")) (PyStr.split_on " " display).

(** The three [yield] sites of [event_stream], in order, for the values
    its locals [route], [payload.image_context] and [moderated] hold when
    they are reached. *)
Definition yielded_frames (route0 : RouteDecision) (image_context : ImageContext)
  (m : ModerationResult) : list Frame :=
  let debug_mode :=
    String.eqb (intent route0) INTENT_DEBUGGING
    || String.eqb (intent route0) INTENT_CODING_TASK in
  [Meta debug_mode (truthy image_context)]
  ++ chunk_frames (display_text m)
  ++ [Done (moderated m) (display_text m)
        (if moderated m then Some (original_text m) else None)].

(** ** Auxiliary predicates used in the statements *)

(** A fault inside the [try] block of [route]: the classifier raises, or
    the selector raises on the intent the classifier produced. *)
Definition routing_fault (classify : string -> option string)
  (choose : string -> Z -> option string) (message : string)
  (has_image : bool) : bool :=
  let normalized := PyStr.strip message in
  match classify normalized with
  | None => true
  | Some detected =>
      match choose (if has_image then INTENT_IMAGE_ANALYSIS else detected)
                   (PyStr.len normalized) with
      | None => true
      | Some _ => false
      end
  end.

(** The tier the selector proposes for a request, before the guard. *)
Definition candidate_tier (message : string) (has_image : bool) : string :=
  let normalized := PyStr.strip message in
  select_model
    (if has_image then INTENT_IMAGE_ANALYSIS else detect_intent normalized)
    (PyStr.len normalized).

(** Neither limit of the guard triggers at [now]. *)
Definition lets_through (self : AdaptiveModelOptimizer) (now : Q) : bool :=
  (consecutive_strong self <? max_consecutive_strong self)%Z
  && (Z.of_nat (List.length (strong_requests (_expire_old_spike_events self now)))
      <? spike_threshold self)%Z.

Fixpoint nondecreasing (l : list Q) : Prop :=
  match l with
  | [] => True
  | a :: l' => match l' with [] => True | b :: _ => a <= b end /\ nondecreasing l'
  end.

Definition first_call (r : RouteDecision) (message : string)
  (image_context : ImageContext) : ProviderCall :=
  mkProviderCall (model_tier r) message image_context (intent r) false.

Definition retry_call (r : RouteDecision) (message : string)
  (image_context : ImageContext) : ProviderCall :=
  mkProviderCall TIER_STANDARD message image_context (intent r) true.

Definition clock0 : RouteClock := mkRouteClock 0 0 0.
Definition genclock0 : GenClock := mkGenClock clock0 0 0.

(** The decision the orchestrator works with: the caller's, or a fresh one
    from the guard. *)
Definition selected_route (message : string) (image_context : ImageContext)
  (optimizer : AdaptiveModelOptimizer) (route_arg : option RouteDecision)
  (clk : GenClock) : RouteDecision :=
  match route_arg with
  | Some r => r
  | None => fst (route optimizer message (truthy image_context) (gen_route_clock clk))
  end.

(** [c * n] for a one-character string. *)
Fixpoint replicate (n : nat) (c : ascii) : string :=
  match n with O => EmptyString | S n' => String c (replicate n' c) end.

Definition req_now (r : Request) : Q := now (req_clock r).

Definition req_candidate (r : Request) : string :=
  candidate_tier (req_message r) (req_has_image r).

Definition record_size (self : AdaptiveModelOptimizer) : Z :=
  Z.of_nat (List.length (strong_requests self)).

(** The bounds the guard keeps on its two mutable fields. *)
Definition guard_bounds (m s : Z) (self : AdaptiveModelOptimizer) : Prop :=
  max_consecutive_strong self = m /\ spike_threshold self = s
  /\ (0 <= consecutive_strong self <= m)%Z
  /\ (record_size self <= s)%Z.

(** The record is oldest-first and holds no reading later than [hi]. *)
Definition guard_ordered (hi : Q) (self : AdaptiveModelOptimizer) : Prop :=
  nondecreasing (strong_requests self)
  /\ Forall (fun t => t <= hi) (strong_requests self).

(** A sample request: a debugging message routed at second [n]. *)
Definition debug_request (n : Z) : Request :=
  mkRequest "debug crash" false (mkRouteClock 0 (inject_Z n) 0).

(** A sample request carrying an image attachment. *)
Definition image_request : Request :=
  mkRequest "analyze this image" true clock0.

(** A word: non-empty, with no whitespace character in it. *)
Fixpoint no_space (s : string) : bool :=
  match s with
  | EmptyString => true
  | String c s' => negb (PyStr.is_space c) && no_space s'
  end.

Definition plain_word (w : string) : bool :=
  negb (PyStr.is_empty w) && no_space w.

(** The payloads of the chunk frames of a stream, in order. *)
Fixpoint chunk_texts (frames : list Frame) : list string :=
  match frames with
  | [] => []
  | Chunk t :: frames' => t :: chunk_texts frames'
  | _ :: frames' => chunk_texts frames'
  end.

(** The concatenation of a list of strings. *)
Fixpoint concat_str (l : list string) : string :=
  match l with
  | [] => EmptyString
  | x :: l' => x ++ concat_str l'
  end.

(** [k] spells the keyword [kw] up to the case of its letters. *)
Fixpoint eq_ci (kw k : string) : bool :=
  match kw, k with
  | EmptyString, EmptyString => true
  | String a kw', String c k' => PyStr.eqb_ci a c && eq_ci kw' k'
  | _, _ => false
  end.

(** The last character of [s], or [prev] when [s] is empty. *)
Fixpoint last_char_from (prev : option ascii) (s : string) : option ascii :=
  match s with
  | EmptyString => prev
  | String c s' => last_char_from (Some c) s'
  end.

Definition last_char (s : string) : option ascii := last_char_from None s.

(** The message contains one of the keywords as a whole word: the keyword,
    in any letter case, with no word character right before or after. *)
Definition contains_keyword (keywords : list string) (message : string) : Prop :=
  exists pre k post kw,
    message = pre ++ k ++ post
    /\ In kw keywords /\ eq_ci kw k = true
    /\ Re.is_word_opt (last_char pre) = false
    /\ Re.is_word_opt (PyStr.head post) = false.

(** Both ends of a keyword are word characters. *)
Definition word_edged (kw : string) : bool :=
  Re.is_word_opt (PyStr.head kw) && Re.is_word_opt (last_char kw).

(** ** Observations on a run of the guard *)

(** Whether a decision went to a strong tier. *)
Definition strong_decision (d : RouteDecision) : bool :=
  in_STRONG_TIERS (model_tier d).

(** The streak of strong decisions at the end of [ds], continuing a streak
    of [k] before it. *)
Fixpoint streak_after (k : Z) (ds : list RouteDecision) : Z :=
  match ds with
  | [] => k
  | d :: ds' => streak_after (if strong_decision d then k + 1 else 0)%Z ds'
  end.

(** The longest streak reached anywhere along [ds]. *)
Fixpoint peak_streak (k : Z) (ds : list RouteDecision) : Z :=
  match ds with
  | [] => k
  | d :: ds' =>
      Z.max k (peak_streak (if strong_decision d then k + 1 else 0)%Z ds')
  end.

(** The clock readings of the requests that were given a strong tier. *)
Fixpoint strong_times (reqs : list Request) (ds : list RouteDecision) : list Q :=
  match reqs, ds with
  | r :: reqs', d :: ds' =>
      if strong_decision d then req_now r :: strong_times reqs' ds'
      else strong_times reqs' ds'
  | _, _ => []
  end.

(** How many readings of [l] are not older than [threshold]. *)
Definition count_since (threshold : Q) (l : list Q) : nat :=
  List.length (filter (fun t => negb (Qltb t threshold)) l).

(** The reading of the last request of a run ([hi] when there is none). *)
Definition last_now (hi : Q) (reqs : list Request) : Q :=
  last (map req_now reqs) hi.

(** The strong assignments made so far are the record preceded by
    readings that have left the window of the latest call. *)
Definition window_inv (hi : Q) (history : list Q) (self : AdaptiveModelOptimizer)
  : Prop :=
  exists dropped,
    history = (dropped ++ strong_requests self)%list
    /\ Forall (fun t => (t < hi - inject_Z (spike_window_seconds self))%Q) dropped.

(** ** Moderation ([backend/moderation.py]) *)

(** The alternatives of [TERM_PATTERN]: [sorted(OFFENSIVE_TERMS)]. *)
Definition TERM_PATTERN : Re.pattern :=
  ["dumb"; "hate"; "idiot"; "loser"; "moron"; "screw"; "stupid"; "trash"].

(** The word alternatives of [AGGRESSIVE_MARKERS]. *)
Definition AGGRESSIVE_WORDS : Re.pattern :=
  ["shut up"; "kill"; "attack"; "worthless"].

(** What [mask_match] returns, whatever the length of the word. *)
Definition MASK := "[...]".

(** [!{2,}] somewhere in the text. *)
Fixpoint has_double_bang (s : string) : bool :=
  match s with
  | EmptyString => false
  | String c s' =>
      match s' with
      | EmptyString => false
      | String d _ => (Ascii.eqb c "!" && Ascii.eqb d "!") || has_double_bang s'
      end
  end.

(** [AGGRESSIVE_MARKERS.search]: either alternative of the group. *)
Definition aggressive_markers_search (s : string) : bool :=
  has_double_bang s || Re.search AGGRESSIVE_WORDS s.

(** The run of characters of [A-Z] a text opens with: its length and the
    character that follows it. *)
Fixpoint upper_run (s : string) : nat * option ascii :=
  match s with
  | EmptyString => (O, None)
  | String c s' =>
      if PyStr.is_upper_ascii c
      then let '(n, next) := upper_run s' in (S n, next)
      else (O, Some c)
  end.

(** [\b[A-Z]{4,}\b] anchored here: the closing [\b] can only stand at the
    end of the whole run, every shorter cut being followed by a letter. *)
Definition all_caps_at (prev : option ascii) (s : string) : bool :=
  let '(n, next) := upper_run s in
  Re.boundary prev (PyStr.head s) && (4 <=? n)%nat
  && negb (Re.is_word_opt next).

(** [ALL_CAPS_PATTERN.search] (case-sensitive). *)
Fixpoint all_caps_search (prev : option ascii) (s : string) : bool :=
  all_caps_at prev s
  || match s with
     | EmptyString => false
     | String c s' => all_caps_search (Some c) s'
     end.

Definition is_aggressive_context (message : string) : bool :=
  if PyStr.is_empty message then false
  else
    let has_marker := aggressive_markers_search message in
    let has_caps := all_caps_search None message in
    let has_offensive := Re.search TERM_PATTERN message in
    has_offensive && (has_marker || has_caps).

(** The keyword [kw], spelled in any case, at the start of [s]: the last
    character it covers ([last] for an empty keyword) and what is left of
    [s] after it. *)
Fixpoint strip_prefix_ci (kw : string) (last : option ascii) (s : string)
  : option (option ascii * string) :=
  match kw with
  | EmptyString => Some (last, s)
  | String a kw' =>
      match s with
      | EmptyString => None
      | String c s' =>
          if PyStr.eqb_ci a c then strip_prefix_ci kw' (Some c) s' else None
      end
  end.

(** The first alternative, in pattern order, that matches here with its
    closing [\b]: the keyword, the last character matched and the rest of
    the text. *)
Fixpoint first_match (p : Re.pattern) (prev : option ascii) (s : string)
  : option (string * option ascii * string) :=
  match p with
  | [] => None
  | kw :: p' =>
      if Re.match_lit kw prev s
      then match strip_prefix_ci kw prev s with
           | Some (last, rest) => Some (kw, last, rest)
           | None => first_match p' prev s
           end
      else first_match p' prev s
  end.

(** [pattern.sub(repl, s)] for a pattern of non-empty keywords, scanning
    left to right: a match is replaced and the scan resumes after it, any
    other character is copied. Every step consumes a character, so
    [S (length s)] steps always suffice. *)
Fixpoint sub_from (fuel : nat) (p : Re.pattern) (repl : string)
  (prev : option ascii) (s : string) : string :=
  match fuel with
  | O => s
  | S fuel' =>
      let copy :=
        match s with
        | EmptyString => EmptyString
        | String c s' => String c (sub_from fuel' p repl (Some c) s')
        end in
      if Re.boundary prev (PyStr.head s) then
        match first_match p prev s with
        | Some (String _ _, last, rest) =>
            repl ++ sub_from fuel' p repl last rest
        | _ => copy
        end
      else copy
  end.

Definition re_sub (p : Re.pattern) (repl : string) (s : string) : string :=
  sub_from (S (String.length s)) p repl None s.

Definition soft_moderate (text : string) (aggressive_context : bool)
  : ModerationResult :=
  if PyStr.is_empty text || negb aggressive_context
  then mkModerationResult text text false
  else
    let masked := re_sub TERM_PATTERN MASK text in
    mkModerationResult masked text (negb (String.eqb masked text)).

(** ** The streaming endpoint ([chat_stream] in [backend/main.py]) *)

Definition TIMEOUT_TEXT := "Ghost fallback: response timed out. Please retry.".
Definition UNAVAILABLE_TEXT := "Ghost fallback: provider unavailable. Please retry.".

(** How [asyncio.wait_for] around the orchestrator ends: with its
    envelope, with [TimeoutError], or with another exception. *)
Inductive Awaited := Returned | TimedOut | Raised.

(** The arguments of [save_routing_log]. *)
Record RoutingLog := mkRoutingLog {
  log_intent : string;
  log_model_tier : string;
  log_message_length : Z;
  log_decision_ms : Q;
  log_response_ms : Q;
  log_fallback_used : bool;
  log_downgraded : bool;
  log_reason : option string
}.

(** What one run of [event_stream] leaves behind: the frames yielded, the
    guard, the routing log entry, the moderation result and the assistant
    message saved. *)
Record StreamRun := mkStreamRun {
  run_frames : list Frame;
  run_guard : AdaptiveModelOptimizer;
  run_log : RoutingLog;
  run_moderated : ModerationResult;
  run_saved : string
}.

(** The [try] around [asyncio.wait_for]: the decision to log, the text,
    the response time and the fallback flag. *)
Definition await_response (message : string) (image_context : ImageContext)
  (AMO1 : AdaptiveModelOptimizer) (route0 : RouteDecision) (clk : GenClock)
  (draw : bool) (outcome : Awaited) (ai_timeout_seconds : Q)
  : RouteDecision * string * Q * bool :=
  match outcome with
  | Returned =>
      let envelope :=
        fst (fst (generate_ai_response draw message image_context AMO1
                    (Some route0) clk)) in
      (route0, text envelope, response_ms envelope, fallback_used envelope)
  | TimedOut =>
      (failsafe_decision message "provider_timeout", TIMEOUT_TEXT,
       ai_timeout_seconds * 1000, true)
  | Raised =>
      (failsafe_decision message "provider_failure", UNAVAILABLE_TEXT,
       0, true)
  end.

(** The generator [event_stream] that [chat_stream] returns: a closure
    over the trimmed message, the payload's image context, the guard and
    the settings, which are its parameters here. Its text is never handed
    in: it is the orchestrator's (or a fallback literal) after moderation. *)
Definition event_stream (message : string) (image_context : ImageContext)
  (AMO : AdaptiveModelOptimizer) (clk : GenClock) (draw : bool)
  (outcome : Awaited) (ai_timeout_seconds : Q) : StreamRun :=
  let '(route0, AMO1) :=
    route AMO message (truthy image_context) (gen_route_clock clk) in
  let '(route1, ai_text, response, fallback) :=
    await_response message image_context AMO1 route0 clk draw outcome
      ai_timeout_seconds in
  let log :=
    mkRoutingLog (intent route1)
      (if PyStr.is_empty (model_tier route1) then TIER_STANDARD
       else model_tier route1)
      (message_length route1) (decision_ms route1) response fallback
      (downgraded route1) (reason route1) in
  let moderated := soft_moderate ai_text (is_aggressive_context message) in
  mkStreamRun (yielded_frames route0 image_context moderated) AMO1 log
    moderated (original_text moderated).

(** [chat_stream]: trim the payload's message and stream. *)
Definition chat_stream (payload_message : string) (image_context : ImageContext)
  (AMO : AdaptiveModelOptimizer) (clk : GenClock) (draw : bool)
  (outcome : Awaited) (ai_timeout_seconds : Q) : StreamRun :=
  event_stream (PyStr.strip payload_message) image_context AMO clk draw
    outcome ai_timeout_seconds.

(** Reading a text from the left: [Some false] while the last character
    read is not whitespace, [Some true] right after one single space,
    [None] as soon as the text showed a whitespace character other than a
    space, or a space that follows a space or opens the text. *)
Fixpoint spacing (after_space : bool) (s : string) : option bool :=
  match s with
  | EmptyString => Some after_space
  | String c s' =>
      if PyStr.is_space c then
        if Ascii.eqb c " " && negb after_space then spacing true s' else None
      else spacing false s'
  end.

(** Non-empty words separated by single spaces, and nothing else. *)
Definition single_spaced (s : string) : bool :=
  match spacing true s with
  | Some false => true
  | _ => false
  end.

(** Texts made of word characters only, and of none. *)
Fixpoint all_word (s : string) : bool :=
  match s with
  | EmptyString => true
  | String c s' => PyStr.is_word c && all_word s'
  end.

Fixpoint no_word (s : string) : bool :=
  match s with
  | EmptyString => true
  | String c s' => negb (PyStr.is_word c) && no_word s'
  end.

(** A keyword of word characters, at least one. *)
Definition word_keyword (kw : string) : bool :=
  negb (PyStr.is_empty kw) && all_word kw.

(** A message made of whitespace only (the empty message included). *)
Fixpoint blank (s : string) : bool :=
  match s with
  | EmptyString => true
  | String c s' => PyStr.is_space c && blank s'
  end.

(** * Properties *)

Example ex1 : detect_intent "hi ghost" = INTENT_CASUAL_CHAT. Proof. reflexivity. Qed.
Example ex2 : detect_intent "what is dependency injection?" = INTENT_KNOWLEDGE_QUESTION. Proof. reflexivity. Qed.
Example ex3 : detect_intent "write python fastapi code for auth" = INTENT_CODING_TASK. Proof. reflexivity. Qed.
Example ex4 : detect_intent "debug traceback error in parser" = INTENT_DEBUGGING. Proof. reflexivity. Qed.
Example ex5 : detect_intent "  my imagery  " = INTENT_UNKNOWN. Proof. reflexivity. Qed.
Example ex6 : detect_intent "  An IMAGE, please " = INTENT_IMAGE_ANALYSIS. Proof. reflexivity. Qed.
Example ex7 : PyStr.split_ws "  a  b c " = ["a"; "b"; "c"]. Proof. reflexivity. Qed.
Example ex8 : PyStr.split_on " " "a  b " = ["a"; EmptyString; "b"; EmptyString]. Proof. reflexivity. Qed.
Example ex9 : PyStr.strip "  a  b c   " = "a  b c". Proof. reflexivity. Qed.

(** ** Tier selector *)

(** C7: for every intent value, listed or not, and every message length
    strictly greater than 2000, [select_model] returns the reasoning tier. *)
Theorem select_model_long_is_reasoning :
  forall (intent : string) (message_length : Z),
    (message_length > 2000)%Z ->
    select_model intent message_length = TIER_REASONING.
Proof.
  intros i n Hn. unfold select_model.
  destruct (Z.gtb_spec n 2000) as [_ | Hle]; [reflexivity | lia].
Qed.

Lemma select_model_long_is_reasoning_witness :
  (2001 > 2000)%Z /\ select_model INTENT_CASUAL_CHAT 2001 = TIER_REASONING
  /\ select_model "no_such_intent" 2001 = TIER_REASONING.
Proof.
  split; [lia |].
  split; apply select_model_long_is_reasoning; lia.
Defined.

(** ** Routing coordinator: fail-open *)

(** C5: if the classifier or the selector raises inside a [route] call, the
    call still returns a decision, which is intent [unknown], tier
    [standard], not downgraded, reason [routing_failure]; the guard is left
    as it was. The call returns a decision on every input: [route_with] is
    a total function into [RouteDecision]. *)
Theorem route_fail_open :
  forall classify choose self message has_image clk,
    routing_fault classify choose message has_image = true ->
    let '(d, self') := route_with classify choose self message has_image clk in
    intent d = INTENT_UNKNOWN /\ model_tier d = TIER_STANDARD
    /\ downgraded d = false /\ reason d = Some "routing_failure"
    /\ message_length d = PyStr.len (PyStr.strip message)
    /\ self' = self.
Proof.
  intros classify choose self message has_image clk.
  unfold routing_fault, route_with.
  destruct (classify (PyStr.strip message)) as [detected |].
  - destruct (choose _ _) as [t |]; [discriminate |].
    intros _. cbn. repeat split.
  - intros _. cbn. repeat split.
Qed.

Lemma route_fail_open_witness :
  routing_fault (fun _ => None) (fun i n => Some (select_model i n))
    "debug this" false = true
  /\ let '(d, self') :=
       route_with (fun _ => None) (fun i n => Some (select_model i n))
         default_optimizer "debug this" false clock0 in
     intent d = INTENT_UNKNOWN /\ model_tier d = TIER_STANDARD
     /\ downgraded d = false /\ reason d = Some "routing_failure"
     /\ message_length d = PyStr.len (PyStr.strip "debug this")
     /\ self' = default_optimizer.
Proof.
  split; [reflexivity |].
  apply (route_fail_open (fun _ => None) (fun i n => Some (select_model i n))
           default_optimizer "debug this" false clock0).
  reflexivity.
Defined.

(** ** Generation orchestrator *)

Lemma attempt_first_ok provider r message ic t :
  provider (first_call r message ic) = Some t ->
  attempt provider r message ic = (t, false, [first_call r message ic]).
Proof. unfold attempt, first_call. intros ->. reflexivity. Qed.

Lemma attempt_retry_ok provider r message ic t :
  provider (first_call r message ic) = None ->
  provider (retry_call r message ic) = Some t ->
  attempt provider r message ic
  = (t, true, [first_call r message ic; retry_call r message ic]).
Proof. unfold attempt, first_call, retry_call. intros -> ->. reflexivity. Qed.

Lemma attempt_both_fail provider r message ic :
  provider (first_call r message ic) = None ->
  provider (retry_call r message ic) = None ->
  attempt provider r message ic
  = (FALLBACK_TEXT, true, [first_call r message ic; retry_call r message ic]).
Proof. unfold attempt, first_call, retry_call. intros -> ->. reflexivity. Qed.

(** The flag records that the first invocation failed, nothing else. *)
Lemma fallback_used_iff_first_fails provider message ic optimizer r clk :
  fallback_used (fst (fst (generate_ai_response_with provider message ic
                             optimizer (Some r) clk))) = true
  <-> provider (first_call r message ic) = None.
Proof.
  unfold generate_ai_response_with.
  destruct (provider (first_call r message ic)) as [t |] eqn:H1.
  - rewrite (attempt_first_ok _ _ _ _ _ H1). cbn. split; discriminate.
  - destruct (provider (retry_call r message ic)) as [t |] eqn:H2.
    + rewrite (attempt_retry_ok _ _ _ _ _ H1 H2). cbn. split; reflexivity.
    + rewrite (attempt_both_fail _ _ _ _ H1 H2). cbn. split; reflexivity.
Qed.

(** C1 as stated fails: with the injected fault drawn on the first
    invocation, the stabilized retry succeeds and the envelope still has
    [fallback_used = true]. *)
Lemma fallback_flag_counterexample :
  ~ (forall provider message ic optimizer r clk,
       provider (first_call r message ic) = None ->
       (fallback_used (fst (fst (generate_ai_response_with provider message ic
                                   optimizer (Some r) clk))) = true
        <-> provider (retry_call r message ic) = None)).
Proof.
  intros claim.
  pose (r := failsafe_decision "hi ghost" "none").
  specialize (claim (_provider_generate true) "hi ghost" None
                default_optimizer r genclock0 eq_refl).
  destruct claim as [to_fail _].
  specialize (to_fail eq_refl). discriminate to_fail.
Qed.

(** C1 (amended): [fallback_used] is true exactly when the first provider
    invocation fails. When it succeeds the provider is called once, the
    text is its text and the flag is false. When it fails the orchestrator
    makes exactly one more invocation, against the standard tier in
    stabilized mode, and the flag is true whether or not that retry
    succeeds; the text is the retry's text when it succeeds and the fixed
    literal fallback sentence when it fails too. *)
Theorem retry_once_then_fallback :
  forall provider message ic optimizer route_arg clk,
    let r := selected_route message ic optimizer route_arg clk in
    let '(env, _, calls) :=
      generate_ai_response_with provider message ic optimizer route_arg clk in
    route_of env = r
    /\ (fallback_used env = true <-> provider (first_call r message ic) = None)
    /\ match provider (first_call r message ic) with
       | Some t =>
           calls = [first_call r message ic]
           /\ text env = t /\ fallback_used env = false
       | None =>
           calls = [first_call r message ic; retry_call r message ic]
           /\ call_tier (retry_call r message ic) = TIER_STANDARD
           /\ call_force_stable (retry_call r message ic) = true
           /\ fallback_used env = true
           /\ text env = match provider (retry_call r message ic) with
                         | Some t => t
                         | None => FALLBACK_TEXT
                         end
       end.
Proof.
  intros provider message ic optimizer route_arg clk r.
  unfold generate_ai_response_with.
  assert (Hsel : fst (match route_arg with
                      | Some r0 => (r0, optimizer)
                      | None => route optimizer message (truthy ic)
                                  (gen_route_clock clk)
                      end) = r).
  { unfold r, selected_route. destruct route_arg; reflexivity. }
  destruct (match route_arg with
            | Some r0 => (r0, optimizer)
            | None => route optimizer message (truthy ic) (gen_route_clock clk)
            end) as [sel opt']. cbn in Hsel. subst sel.
  destruct (provider (first_call r message ic)) as [t1 |] eqn:H1.
  - rewrite (attempt_first_ok _ _ _ _ _ H1). cbn.
    repeat split; discriminate.
  - destruct (provider (retry_call r message ic)) as [t |] eqn:H2.
    + rewrite (attempt_retry_ok _ _ _ _ _ H1 H2). cbn. repeat split.
    + rewrite (attempt_both_fail _ _ _ _ H1 H2). cbn. repeat split.
Qed.

Lemma retry_once_then_fallback_witness :
  let r := selected_route "hi ghost" None default_optimizer None genclock0 in
  (_provider_generate true (first_call r "hi ghost" None) = None
   /\ fallback_used
        (fst (fst (generate_ai_response_with (_provider_generate true)
                     "hi ghost" None default_optimizer None genclock0))) = true)
  /\ (_provider_generate false (first_call r "hi ghost" None) <> None
      /\ fallback_used
           (fst (fst (generate_ai_response_with (_provider_generate false)
                        "hi ghost" None default_optimizer None genclock0)))
         = false).
Proof.
  intro r. split.
  - pose proof (retry_once_then_fallback (_provider_generate true) "hi ghost"
                  None default_optimizer None genclock0) as H.
    cbn zeta in H.
    destruct (generate_ai_response_with (_provider_generate true) "hi ghost"
                None default_optimizer None genclock0) as [[env g] calls].
    destruct H as (_ & Hiff & _).
    split; [reflexivity | apply Hiff; reflexivity].
  - pose proof (retry_once_then_fallback (_provider_generate false) "hi ghost"
                  None default_optimizer None genclock0) as H.
    cbn zeta in H.
    destruct (generate_ai_response_with (_provider_generate false) "hi ghost"
                None default_optimizer None genclock0) as [[env g] calls].
    destruct H as (_ & Hiff & _).
    split; [discriminate |].
    cbn [fst]. destruct (fallback_used env); [| reflexivity].
    destruct Hiff as [Hto _]. specialize (Hto eq_refl). discriminate Hto.
Defined.

Lemma append_nonempty_l (a b : string) : a <> EmptyString -> (a ++ b) <> EmptyString.
Proof. destruct a; [congruence | discriminate]. Qed.

(** The provider's own texts are never empty. *)
Lemma provider_text_nonempty draw c t :
  _provider_generate draw c = Some t -> t <> EmptyString.
Proof.
  unfold _provider_generate.
  destruct (negb (call_force_stable c) && draw); [discriminate |].
  destruct (negb (PyStr.is_empty _)); intros [= <-]; discriminate.
Qed.

(** The stabilized retry of the stand-in provider cannot fail. *)
Lemma stabilized_retry_succeeds draw r message ic :
  _provider_generate draw (retry_call r message ic) <> None.
Proof.
  unfold _provider_generate, retry_call; cbn.
  destruct (negb (PyStr.is_empty _)); discriminate.
Qed.

(** C9: every call of [generate_ai_response] returns an envelope whose
    text is non-empty: on the generated path the text is the fixed opening,
    the preamble of the intent and the whitespace-normalized message cut to
    180 characters (or the fixed sentence for a blank message), and the
    literal fallback sentence is non-empty as well; the same holds for any
    provider whose own texts are non-empty. *)
Theorem response_text_nonempty :
  (forall draw message ic optimizer route_arg clk,
      text (fst (fst (generate_ai_response draw message ic optimizer
                        route_arg clk))) <> EmptyString)
  /\ (forall provider,
         (forall c t, provider c = Some t -> t <> EmptyString) ->
         forall message ic optimizer route_arg clk,
           text (fst (fst (generate_ai_response_with provider message ic
                             optimizer route_arg clk))) <> EmptyString)
  /\ FALLBACK_TEXT <> EmptyString
  /\ (forall c,
         let normalized :=
           PyStr.strip (PyStr.join " " (PyStr.split_ws (call_message c))) in
         _provider_generate false c
         = Some (if PyStr.is_empty normalized then EMPTY_MESSAGE_TEXT
                 else "Ghost is active. "
                      ++ body_of (call_intent c) (call_image_context c)
                      ++ "Focus: " ++ dquote ++ PyStr.take 180 normalized
                      ++ dquote ++ ".")).
Proof.
  assert (generic : forall provider,
             (forall c t, provider c = Some t -> t <> EmptyString) ->
             forall message ic optimizer route_arg clk,
               text (fst (fst (generate_ai_response_with provider message ic
                                 optimizer route_arg clk))) <> EmptyString).
  { intros provider Hp message ic optimizer route_arg clk.
    unfold generate_ai_response_with.
    destruct (match route_arg with
              | Some r => (r, optimizer)
              | None => route optimizer message (truthy ic) (gen_route_clock clk)
              end) as [sel opt'].
    unfold attempt.
    destruct (provider (mkProviderCall (model_tier sel) message ic (intent sel) false))
      as [t |] eqn:H1.
    - cbn. exact (Hp _ _ H1).
    - destruct (provider (mkProviderCall TIER_STANDARD message ic (intent sel) true))
        as [t |] eqn:H2; cbn.
      + exact (Hp _ _ H2).
      + discriminate. }
  split; [| split; [exact generic | split; [discriminate |]]].
  - intros draw message ic optimizer route_arg clk.
    apply generic. intros c t. apply provider_text_nonempty.
  - intros c normalized. unfold _provider_generate.
    rewrite andb_false_r. fold normalized.
    destruct (PyStr.is_empty normalized); reflexivity.
Qed.

(** ** Overload guard *)

Section GuardLemmas.

Local Open Scope Z_scope.

Lemma Qltb_true (a b : Q) : Qltb a b = true <-> (a < b)%Q.
Proof.
  unfold Qltb. rewrite negb_true_iff. split.
  - intro H. apply Qnot_le_lt. intro Hle.
    apply Qle_bool_iff in Hle. congruence.
  - intro H. destruct (Qle_bool b a) eqn:E; [| reflexivity].
    apply Qle_bool_iff in E. exfalso. exact (Qlt_not_le _ _ H E).
Qed.

Lemma popleft_length thr q :
  (List.length (popleft_while_below thr q) <= List.length q)%nat.
Proof.
  induction q as [| t q IH]; cbn; [lia |].
  destruct (Qltb t thr); cbn; lia.
Qed.

Lemma popleft_all_below thr q :
  Forall (fun t => (t < thr)%Q) q -> popleft_while_below thr q = [].
Proof.
  induction 1 as [| t q Ht _ IH]; cbn; [reflexivity |].
  apply Qltb_true in Ht. rewrite Ht. exact IH.
Qed.

(** What pruning keeps is a suffix of the record. *)
Lemma popleft_suffix thr q :
  exists dropped, q = (dropped ++ popleft_while_below thr q)%list.
Proof.
  induction q as [| t q [dropped IH]]; cbn.
  - exists []. reflexivity.
  - destruct (Qltb t thr).
    + exists (t :: dropped). cbn. f_equal. exact IH.
    + exists []. reflexivity.
Qed.

(** After pruning nothing in the record is older than the window. *)
Lemma popleft_head_fresh thr q t q' :
  popleft_while_below thr q = t :: q' -> (thr <= t)%Q.
Proof.
  induction q as [| a q IH]; cbn; [discriminate |].
  destruct (Qltb a thr) eqn:E; [exact IH |].
  intros [= -> ->]. apply Qnot_lt_le. intro H.
  apply Qltb_true in H. congruence.
Qed.

Lemma nondecreasing_tail a l : nondecreasing (a :: l) -> nondecreasing l.
Proof. cbn. tauto. Qed.

Lemma nondecreasing_suffix l1 l2 :
  nondecreasing (l1 ++ l2)%list -> nondecreasing l2.
Proof.
  induction l1 as [| a l1 IH]; [trivial |].
  intro H. apply IH. exact (nondecreasing_tail _ _ H).
Qed.

Lemma nondecreasing_snoc l x :
  nondecreasing l -> Forall (fun t => (t <= x)%Q) l ->
  nondecreasing (l ++ [x])%list.
Proof.
  induction l as [| a l IH]; cbn; [tauto |].
  intros [Hhd Htl] Hall. inversion Hall as [| ? ? Ha Hl]; subst.
  split; [| exact (IH Htl Hl)].
  destruct l as [| b l]; cbn; [exact Ha | exact Hhd].
Qed.

Lemma Forall_suffix {A} (P : A -> Prop) l1 l2 :
  Forall P (l1 ++ l2)%list -> Forall P l2.
Proof. intro H. apply Forall_app in H. tauto. Qed.

Lemma in_STRONG_TIERS_standard : in_STRONG_TIERS TIER_STANDARD = false.
Proof. reflexivity. Qed.

(** [route] is the critical section applied to the candidate tier. *)
Lemma route_unfold self message has_image clk :
  route self message has_image clk
  = let normalized := PyStr.strip message in
    let '(adm, self') :=
      locked_section self (candidate_tier message has_image) (now clk) in
    (mkRouteDecision
       (if has_image then INTENT_IMAGE_ANALYSIS else detect_intent normalized)
       (adm_tier adm) (PyStr.len normalized)
       (elapsed_ms (start_ns clk) (end_ns clk))
       (adm_downgraded adm) (adm_reason adm), self').
Proof. reflexivity. Qed.

(** The three outcomes of the critical section. *)
Lemma locked_accept self tier now :
  in_STRONG_TIERS tier = true ->
  consecutive_strong self < max_consecutive_strong self ->
  record_size (_expire_old_spike_events self now) < spike_threshold self ->
  locked_section self tier now
  = (mkAdmission tier false None,
     mkOptimizer (max_consecutive_strong self) (spike_threshold self)
       (spike_window_seconds self) (consecutive_strong self + 1)
       (strong_requests (_expire_old_spike_events self now) ++ [now])).
Proof.
  intros Hs Hc Hr. unfold locked_section, record_size in *. cbn in *.
  rewrite Hs.
  destruct (Z.geb_spec (consecutive_strong self) (max_consecutive_strong self));
    [lia |].
  destruct (Z.geb_spec
              (Z.of_nat (List.length
                 (popleft_while_below
                    (now - inject_Z (spike_window_seconds self))
                    (strong_requests self))))
              (spike_threshold self)); [lia |].
  cbn. rewrite Hs. reflexivity.
Qed.

Lemma locked_consecutive_limit self tier now :
  in_STRONG_TIERS tier = true ->
  max_consecutive_strong self <= consecutive_strong self ->
  locked_section self tier now
  = (mkAdmission TIER_STANDARD true (Some "consecutive_strong_limit"),
     mkOptimizer (max_consecutive_strong self) (spike_threshold self)
       (spike_window_seconds self) 0
       (strong_requests (_expire_old_spike_events self now))).
Proof.
  intros Hs Hc. unfold locked_section. cbn. rewrite Hs.
  destruct (Z.geb_spec (consecutive_strong self) (max_consecutive_strong self));
    [| lia].
  reflexivity.
Qed.

Lemma locked_usage_spike self tier now :
  in_STRONG_TIERS tier = true ->
  consecutive_strong self < max_consecutive_strong self ->
  spike_threshold self <= record_size (_expire_old_spike_events self now) ->
  locked_section self tier now
  = (mkAdmission TIER_STANDARD true (Some "usage_spike"),
     mkOptimizer (max_consecutive_strong self) (spike_threshold self)
       (spike_window_seconds self) 0
       (strong_requests (_expire_old_spike_events self now))).
Proof.
  intros Hs Hc Hr. unfold locked_section, record_size in *. cbn in *.
  rewrite Hs.
  destruct (Z.geb_spec (consecutive_strong self) (max_consecutive_strong self));
    [lia |].
  destruct (Z.geb_spec
              (Z.of_nat (List.length
                 (popleft_while_below
                    (now - inject_Z (spike_window_seconds self))
                    (strong_requests self))))
              (spike_threshold self)); [| lia].
  reflexivity.
Qed.

Lemma locked_not_strong self tier now :
  in_STRONG_TIERS tier = false ->
  locked_section self tier now
  = (mkAdmission tier false None,
     mkOptimizer (max_consecutive_strong self) (spike_threshold self)
       (spike_window_seconds self) 0
       (strong_requests (_expire_old_spike_events self now))).
Proof.
  intros Hs. unfold locked_section. cbn. rewrite Hs. cbn. rewrite Hs.
  reflexivity.
Qed.

(** The configuration never changes. *)
Lemma locked_config self tier now :
  let self' := snd (locked_section self tier now) in
  max_consecutive_strong self' = max_consecutive_strong self
  /\ spike_threshold self' = spike_threshold self
  /\ spike_window_seconds self' = spike_window_seconds self.
Proof.
  unfold locked_section. cbn.
  destruct (in_STRONG_TIERS (adm_tier _)); cbn; repeat split.
Qed.

(** The streak is zero after every call whose final tier is not strong. *)
Lemma locked_reset self tier now :
  in_STRONG_TIERS (adm_tier (fst (locked_section self tier now))) = false ->
  consecutive_strong (snd (locked_section self tier now)) = 0.
Proof.
  unfold locked_section. cbn. intros ->. reflexivity.
Qed.

Lemma locked_reset_record self tier now :
  in_STRONG_TIERS (adm_tier (fst (locked_section self tier now))) = false ->
  strong_requests (snd (locked_section self tier now))
  = strong_requests (_expire_old_spike_events self now).
Proof.
  unfold locked_section. cbn. intros ->. reflexivity.
Qed.

Lemma record_size_expire self now :
  record_size (_expire_old_spike_events self now) <= record_size self.
Proof.
  unfold record_size, _expire_old_spike_events. cbn.
  pose proof (popleft_length (now - inject_Z (spike_window_seconds self))
                (strong_requests self)). lia.
Qed.

End GuardLemmas.

Section GuardInvariants.

Local Open Scope Z_scope.

Lemma locked_record self tier now :
  let pruned := strong_requests (_expire_old_spike_events self now) in
  let self' := snd (locked_section self tier now) in
  (strong_requests self' = pruned
   /\ consecutive_strong self' = 0)
  \/ (strong_requests self' = (pruned ++ [now])%list
      /\ consecutive_strong self' = consecutive_strong self + 1
      /\ consecutive_strong self < max_consecutive_strong self
      /\ record_size (_expire_old_spike_events self now) < spike_threshold self).
Proof.
  cbn zeta.
  destruct (in_STRONG_TIERS tier) eqn:Hs.
  - destruct (Z_lt_le_dec (consecutive_strong self) (max_consecutive_strong self))
      as [Hc | Hc].
    + destruct (Z_lt_le_dec (record_size (_expire_old_spike_events self now))
                  (spike_threshold self)) as [Hr | Hr].
      * rewrite (locked_accept _ _ _ Hs Hc Hr). right. cbn. repeat split; assumption.
      * rewrite (locked_usage_spike _ _ _ Hs Hc Hr). left. cbn. split; reflexivity.
    + rewrite (locked_consecutive_limit _ _ _ Hs Hc). left. cbn. split; reflexivity.
  - rewrite (locked_not_strong _ _ _ Hs). left. cbn. split; reflexivity.
Qed.

Lemma locked_bounds m s self tier now :
  guard_bounds m s self -> guard_bounds m s (snd (locked_section self tier now)).
Proof.
  intros (Hm & Hs & Hc & Hr).
  destruct (locked_config self tier now) as (Em & Es & _).
  pose proof (record_size_expire self now) as Hle.
  unfold guard_bounds. rewrite Em, Es.
  destruct (locked_record self tier now) as [[Erec Ecnt] | (Erec & Ecnt & Hlt & Hrl)].
  - unfold record_size in *. rewrite Erec, Ecnt. repeat split; lia.
  - unfold record_size in *. rewrite Erec, Ecnt, length_app.
    change (List.length [now]) with 1%nat.
    repeat split; lia.
Qed.

Lemma locked_ordered hi self tier now :
  guard_ordered hi self -> (hi <= now)%Q ->
  guard_ordered now (snd (locked_section self tier now)).
Proof.
  intros [Hnd Hall] Hhi.
  destruct (popleft_suffix (now - inject_Z (spike_window_seconds self))
              (strong_requests self)) as [dropped Hsplit].
  set (pruned := popleft_while_below _ _) in Hsplit.
  assert (Hnd' : nondecreasing pruned).
  { apply (nondecreasing_suffix dropped). rewrite <- Hsplit. exact Hnd. }
  assert (Hall' : Forall (fun t => (t <= now)%Q) pruned).
  { apply (Forall_suffix _ dropped). rewrite <- Hsplit.
    eapply Forall_impl; [| exact Hall].
    cbn. intros t Ht. eapply Qle_trans; eassumption. }
  unfold guard_ordered.
  destruct (locked_record self tier now) as [[Erec _] | (Erec & _)];
    rewrite Erec; cbn; fold pruned.
  - split; assumption.
  - split.
    + apply nondecreasing_snoc; assumption.
    + apply Forall_app. split; [assumption |].
      constructor; [apply Qle_refl | constructor].
Qed.

Lemma route_state self message has_image clk :
  snd (route self message has_image clk)
  = snd (locked_section self (candidate_tier message has_image) (now clk)).
Proof.
  rewrite route_unfold. cbn zeta.
  destruct (locked_section _ _ _). reflexivity.
Qed.

Lemma route_all_cons self r reqs :
  snd (route_all self (r :: reqs))
  = snd (route_all
           (snd (route self (req_message r) (req_has_image r) (req_clock r)))
           reqs).
Proof.
  cbn [route_all].
  destruct (route self (req_message r) (req_has_image r) (req_clock r))
    as [d self1]. cbn [snd].
  destruct (route_all self1 reqs). reflexivity.
Qed.

Lemma route_all_bounds m s reqs : forall self,
  guard_bounds m s self -> guard_bounds m s (snd (route_all self reqs)).
Proof.
  induction reqs as [| r reqs IH]; intros self H; [exact H |].
  rewrite route_all_cons. apply IH. rewrite route_state.
  apply locked_bounds. exact H.
Qed.

Lemma route_all_ordered reqs : forall hi self,
  guard_ordered hi self ->
  nondecreasing (hi :: map req_now reqs) ->
  exists hi', guard_ordered hi' (snd (route_all self reqs)).
Proof.
  induction reqs as [| r reqs IH]; intros hi self H Hclk.
  - exists hi. exact H.
  - rewrite route_all_cons. destruct Hclk as [Hhi Hrest].
    apply (IH (req_now r)); [| exact Hrest].
    rewrite route_state. apply (locked_ordered hi); assumption.
Qed.

End GuardInvariants.

(** C10: for a guard constructed with [max_consecutive_strong = m >= 0] and
    [spike_threshold = s >= 0], after any sequence of [route] calls the
    consecutive-strong counter is at most [m] and the timestamp record
    holds at most [s] entries; and, the monotonic clock never going back
    from one call to the next, the record is in non-decreasing order. *)
Theorem guard_counters_bounded_and_ordered :
  forall (m s w : Z) (reqs : list Request),
    (0 <= m)%Z -> (0 <= s)%Z ->
    let self := snd (route_all (new_optimizer m s w) reqs) in
    (consecutive_strong self <= m)%Z
    /\ (Z.of_nat (List.length (strong_requests self)) <= s)%Z
    /\ (nondecreasing (map req_now reqs) -> nondecreasing (strong_requests self)).
Proof.
  intros m s w reqs Hm Hs self.
  assert (Hb : guard_bounds m s self).
  { apply route_all_bounds. unfold guard_bounds, record_size. cbn.
    repeat split; lia. }
  destruct Hb as (_ & _ & Hc & Hr).
  split; [lia | split; [exact Hr |]].
  intro Hclk.
  destruct reqs as [| r reqs]; [exact I |].
  destruct (route_all_ordered (r :: reqs) (req_now r) (new_optimizer m s w))
    as [hi' [Hnd _]].
  - split; [exact I | constructor].
  - split; [apply Qle_refl | exact Hclk].
  - exact Hnd.
Qed.

Lemma guard_counters_bounded_and_ordered_witness :
  let reqs := map debug_request [1; 2; 3; 4; 5; 70; 71]%Z in
  (0 <= 3)%Z /\ (0 <= 10)%Z
  /\ let self := snd (route_all (new_optimizer 3 10 60) reqs) in
     (consecutive_strong self <= 3)%Z
     /\ (Z.of_nat (List.length (strong_requests self)) <= 10)%Z
     /\ (nondecreasing (map req_now reqs) -> nondecreasing (strong_requests self)).
Proof.
  intro reqs. split; [lia | split; [lia |]].
  apply (guard_counters_bounded_and_ordered 3 10 60 reqs); lia.
Defined.

Section GuardScenarios.

Local Open Scope Z_scope.

Lemma route_accept self r :
  in_STRONG_TIERS (req_candidate r) = true ->
  consecutive_strong self < max_consecutive_strong self ->
  record_size self < spike_threshold self ->
  exists d self',
    route self (req_message r) (req_has_image r) (req_clock r) = (d, self')
    /\ model_tier d = req_candidate r /\ downgraded d = false
    /\ reason d = None
    /\ consecutive_strong self' = consecutive_strong self + 1
    /\ record_size self' <= record_size self + 1
    /\ max_consecutive_strong self' = max_consecutive_strong self
    /\ spike_threshold self' = spike_threshold self.
Proof.
  intros Hs Hc Hr.
  pose proof (record_size_expire self (req_now r)) as Hle.
  assert (Hr' : record_size (_expire_old_spike_events self (req_now r))
                < spike_threshold self) by lia.
  rewrite route_unfold. cbn zeta.
  fold (req_candidate r). fold (req_now r).
  rewrite (locked_accept _ _ _ Hs Hc Hr').
  eexists _, _. split; [reflexivity |]. cbn.
  repeat split; try reflexivity.
  unfold record_size in *. cbn in *. rewrite length_app. cbn. lia.
Qed.

Lemma route_consecutive_limit self r :
  in_STRONG_TIERS (req_candidate r) = true ->
  max_consecutive_strong self <= consecutive_strong self ->
  exists d self',
    route self (req_message r) (req_has_image r) (req_clock r) = (d, self')
    /\ model_tier d = TIER_STANDARD /\ downgraded d = true
    /\ reason d = Some "consecutive_strong_limit"
    /\ consecutive_strong self' = 0
    /\ record_size self' <= record_size self
    /\ max_consecutive_strong self' = max_consecutive_strong self
    /\ spike_threshold self' = spike_threshold self.
Proof.
  intros Hs Hc.
  pose proof (record_size_expire self (req_now r)) as Hle.
  rewrite route_unfold. cbn zeta.
  fold (req_candidate r). fold (req_now r).
  rewrite (locked_consecutive_limit _ _ _ Hs Hc).
  eexists _, _. split; [reflexivity |]. cbn.
  repeat split; try reflexivity. exact Hle.
Qed.

(** Whatever the request, a final tier that is not strong zeroes the
    streak and adds nothing to the record. *)
Lemma route_not_strong_resets self r :
  exists d self',
    route self (req_message r) (req_has_image r) (req_clock r) = (d, self')
    /\ max_consecutive_strong self' = max_consecutive_strong self
    /\ spike_threshold self' = spike_threshold self
    /\ (in_STRONG_TIERS (model_tier d) = false ->
        consecutive_strong self' = 0
        /\ record_size self' <= record_size self).
Proof.
  pose proof (record_size_expire self (req_now r)) as Hle.
  pose proof (locked_reset self (req_candidate r) (req_now r)) as Hreset.
  pose proof (locked_reset_record self (req_candidate r) (req_now r)) as Hrec.
  destruct (locked_config self (req_candidate r) (req_now r)) as (Em & Es & _).
  rewrite route_unfold. cbn zeta.
  fold (req_candidate r). fold (req_now r).
  destruct (locked_section self (req_candidate r) (req_now r)) as [adm self'].
  cbn [fst snd] in *.
  eexists _, _. split; [reflexivity |]. cbn [model_tier].
  repeat split; try assumption.
  - exact (Hreset H).
  - unfold record_size in *. rewrite (Hrec H). exact Hle.
Qed.

End GuardScenarios.

(** C3: on a fresh guard with [max_consecutive_strong = 3] whose spike
    threshold is not reached, four consecutive calls whose messages each
    classify to a strong tier get the tiers strong, strong, strong,
    standard, the fourth decision being downgraded with reason
    [consecutive_strong_limit]; a following request whose final tier is
    not strong leaves the streak at zero, and the strong-classified request
    after it is admitted to its strong tier again. *)
Theorem consecutive_strong_limit_and_reset :
  forall (s w : Z) (r1 r2 r3 r4 r5 r6 : Request),
    (3 < s)%Z ->
    in_STRONG_TIERS (req_candidate r1) = true ->
    in_STRONG_TIERS (req_candidate r2) = true ->
    in_STRONG_TIERS (req_candidate r3) = true ->
    in_STRONG_TIERS (req_candidate r4) = true ->
    in_STRONG_TIERS (req_candidate r6) = true ->
    let fresh := new_optimizer 3 s w in
    exists d1 d2 d3 d4 d5 d6,
      fst (route_all fresh [r1; r2; r3; r4; r5; r6]) = [d1; d2; d3; d4; d5; d6]
      /\ fst (route_all fresh [r1; r2; r3; r4]) = [d1; d2; d3; d4]
      /\ map model_tier [d1; d2; d3; d4]
         = [req_candidate r1; req_candidate r2; req_candidate r3; TIER_STANDARD]
      /\ map downgraded [d1; d2; d3; d4] = [false; false; false; true]
      /\ map reason [d1; d2; d3; d4]
         = [None; None; None; Some "consecutive_strong_limit"]
      /\ (in_STRONG_TIERS (model_tier d5) = false ->
          consecutive_strong (snd (route_all fresh [r1; r2; r3; r4; r5])) = 0%Z
          /\ model_tier d6 = req_candidate r6
          /\ in_STRONG_TIERS (model_tier d6) = true
          /\ downgraded d6 = false /\ reason d6 = None).
Proof.
  intros s w r1 r2 r3 r4 r5 r6 Hs H1 H2 H3 H4 H6 fresh.
  destruct (route_accept fresh r1 H1) as
    (d1 & g1 & E1 & T1 & D1 & R1 & C1 & S1 & M1 & P1);
    [cbn; lia | unfold record_size; cbn; lia |].
  change (consecutive_strong fresh) with 0%Z in C1.
  change (record_size fresh) with 0%Z in S1.
  change (max_consecutive_strong fresh) with 3%Z in M1.
  change (spike_threshold fresh) with s in P1.
  destruct (route_accept g1 r2 H2) as
    (d2 & g2 & E2 & T2 & D2 & R2 & C2 & S2 & M2 & P2); [lia | lia |].
  destruct (route_accept g2 r3 H3) as
    (d3 & g3 & E3 & T3 & D3 & R3 & C3 & S3 & M3 & P3); [lia | lia |].
  destruct (route_consecutive_limit g3 r4 H4) as
    (d4 & g4 & E4 & T4 & D4 & R4 & C4 & S4 & M4 & P4); [lia |].
  destruct (route_not_strong_resets g4 r5) as (d5 & g5 & E5 & M5 & P5 & N5).
  exists d1, d2, d3, d4, d5.
  destruct (route g5 (req_message r6) (req_has_image r6) (req_clock r6))
    as [d6 g6] eqn:E6.
  exists d6.
  cbn [route_all]. rewrite E1, E2, E3, E4, E5, E6. cbn [fst snd map].
  rewrite T1, T2, T3, T4, D1, D2, D3, D4, R1, R2, R3, R4.
  repeat (split; [reflexivity |]).
  intros Hn. destruct (N5 Hn) as [C5 S5].
  split; [exact C5 |].
  destruct (route_accept g5 r6 H6) as
    (d6' & g6' & E6' & T6 & D6 & R6 & _); [lia | lia |].
  rewrite E6 in E6'. injection E6' as <- <-.
  rewrite T6. repeat split; assumption.
Qed.

Lemma consecutive_strong_limit_and_reset_witness :
  let strong := debug_request 1 in
  let weak := mkRequest "hi ghost" false clock0 in
  (3 < 1000)%Z
  /\ in_STRONG_TIERS (req_candidate strong) = true
  /\ in_STRONG_TIERS
       (model_tier (nth 4 (fst (route_all (new_optimizer 3 1000 60)
                                  [strong; strong; strong; strong; weak; strong]))
                      (failsafe_decision "none" "none"))) = false
  /\ map model_tier (fst (route_all (new_optimizer 3 1000 60)
                            [strong; strong; strong; strong; weak; strong]))
     = [TIER_REASONING; TIER_REASONING; TIER_REASONING; TIER_STANDARD;
        TIER_LIGHT; TIER_REASONING].
Proof.
  intros strong weak.
  destruct (consecutive_strong_limit_and_reset 1000 60
              strong strong strong strong weak strong)
    as (d1 & d2 & d3 & d4 & d5 & d6 & E & _ & T & _ & _ & L);
    [lia | reflexivity | reflexivity | reflexivity | reflexivity | reflexivity |].
  split; [lia |].
  split; [reflexivity |].
  split; [reflexivity |].
  rewrite E. cbn [map]. cbn [map] in T.
  injection T as -> -> -> ->.
  assert (Hd5 : d5 = nth 4 (fst (route_all (new_optimizer 3 1000 60)
                               [strong; strong; strong; strong; weak; strong]))
                          (failsafe_decision "none" "none")).
  { rewrite E. reflexivity. }
  assert (Hweak : in_STRONG_TIERS (model_tier d5) = false).
  { rewrite Hd5. reflexivity. }
  destruct (L Hweak) as (_ & T6 & _).
  rewrite T6.
  assert (T5 : model_tier d5 = TIER_LIGHT).
  { rewrite Hd5. reflexivity. }
  rewrite T5. reflexivity.
Defined.

(** C4: when the record, once pruned, already holds [spike_threshold]
    readings and the consecutive limit does not trigger, a call whose
    candidate tier is strong is downgraded to standard with reason
    [usage_spike]; when the consecutive limit triggers, its reason is the
    one recorded; and when every recorded reading is older than the window,
    pruning empties the record, and the strong candidate is admitted (the
    consecutive limit not triggering, and the threshold being positive). *)
Theorem usage_spike_downgrade_and_recovery :
  forall (self : AdaptiveModelOptimizer) (r : Request),
    in_STRONG_TIERS (req_candidate r) = true ->
    exists d self',
      route self (req_message r) (req_has_image r) (req_clock r) = (d, self')
      /\ ((consecutive_strong self < max_consecutive_strong self)%Z ->
          (spike_threshold self
           <= record_size (_expire_old_spike_events self (req_now r)))%Z ->
          model_tier d = TIER_STANDARD /\ downgraded d = true
          /\ reason d = Some "usage_spike")
      /\ ((max_consecutive_strong self <= consecutive_strong self)%Z ->
          model_tier d = TIER_STANDARD /\ downgraded d = true
          /\ reason d = Some "consecutive_strong_limit")
      /\ (Forall (fun t => t < req_now r - inject_Z (spike_window_seconds self))
            (strong_requests self) ->
          strong_requests (_expire_old_spike_events self (req_now r)) = []
          /\ ((consecutive_strong self < max_consecutive_strong self)%Z ->
              (0 < spike_threshold self)%Z ->
              model_tier d = req_candidate r /\ downgraded d = false
              /\ reason d = None /\ strong_requests self' = [req_now r])).
Proof.
  intros self r Hs.
  rewrite route_unfold. cbn zeta. fold (req_candidate r). fold (req_now r).
  destruct (locked_section self (req_candidate r) (req_now r)) as [adm self']
    eqn:E.
  eexists _, _. split; [reflexivity |]. cbn [model_tier downgraded reason].
  split; [| split].
  - intros Hc Hr. rewrite (locked_usage_spike _ _ _ Hs Hc Hr) in E.
    injection E as <- <-. repeat split.
  - intros Hc. rewrite (locked_consecutive_limit _ _ _ Hs Hc) in E.
    injection E as <- <-. repeat split.
  - intros Hold.
    assert (Hempty : strong_requests (_expire_old_spike_events self (req_now r)) = []).
    { cbn. apply popleft_all_below. exact Hold. }
    split; [exact Hempty |].
    intros Hc Hpos.
    assert (Hr : (record_size (_expire_old_spike_events self (req_now r))
                  < spike_threshold self)%Z).
    { unfold record_size. rewrite Hempty. cbn. lia. }
    rewrite (locked_accept _ _ _ Hs Hc Hr) in E.
    injection E as <- <-. cbn in Hempty. cbn. rewrite Hempty. repeat split.
Qed.

Lemma usage_spike_downgrade_and_recovery_witness :
  let full := snd (route_all (new_optimizer 3 2 60)
                     [debug_request 1; debug_request 2]) in
  let spiked := snd (route_all full [debug_request 3]) in
  in_STRONG_TIERS (req_candidate (debug_request 3)) = true
  /\ (consecutive_strong full < max_consecutive_strong full)%Z
  /\ (spike_threshold full
      <= record_size (_expire_old_spike_events full (req_now (debug_request 3))))%Z
  /\ reason (fst (route full "debug crash" false (req_clock (debug_request 3))))
     = Some "usage_spike"
  /\ Forall (fun t => t < req_now (debug_request 100)
                          - inject_Z (spike_window_seconds spiked))
       (strong_requests spiked)
  /\ model_tier (fst (route spiked "debug crash" false
                        (req_clock (debug_request 100))))
     = TIER_REASONING.
Proof.
  intros full spiked.
  assert (Hs : in_STRONG_TIERS (req_candidate (debug_request 3)) = true)
    by reflexivity.
  assert (Hc : (consecutive_strong full < max_consecutive_strong full)%Z)
    by (vm_compute; reflexivity).
  assert (Hr : (spike_threshold full
                <= record_size (_expire_old_spike_events full
                                  (req_now (debug_request 3))))%Z)
    by (vm_compute; discriminate).
  assert (Hold : Forall (fun t => t < req_now (debug_request 100)
                                      - inject_Z (spike_window_seconds spiked))
                   (strong_requests spiked)).
  { repeat constructor. }
  repeat (split; [assumption |]).
  destruct (usage_spike_downgrade_and_recovery full (debug_request 3) Hs)
    as (d & g & E & Hspike & _ & _).
  destruct (Hspike Hc Hr) as (_ & _ & Hreason).
  split; [change (req_message (debug_request 3)) with "debug crash" in E;
          change (req_has_image (debug_request 3)) with false in E;
          rewrite E; exact Hreason |].
  split; [exact Hold |].
  destruct (usage_spike_downgrade_and_recovery spiked (debug_request 100)
              eq_refl)
    as (d' & g' & E' & _ & _ & Hrecover).
  destruct (Hrecover Hold) as (_ & Haccept).
  destruct Haccept as (Ht & _); [vm_compute; reflexivity | vm_compute; reflexivity |].
  change (req_message (debug_request 100)) with "debug crash" in E'.
  change (req_has_image (debug_request 100)) with false in E'.
  rewrite E'. exact Ht.
Defined.

(** ** Routing of image attachments *)

(** C2 as stated fails: the fourth image request in a row on the default
    guard is routed to the standard tier, not to vision. *)
Lemma image_attachment_counterexample :
  ~ (forall self message clk,
        let d := fst (route self message true clk) in
        intent d = INTENT_IMAGE_ANALYSIS /\ model_tier d = TIER_VISION).
Proof.
  intros claim.
  specialize (claim (snd (route_all default_optimizer
                            [image_request; image_request; image_request]))
                "analyze this image" clock0).
  destruct claim as [_ Htier]. vm_compute in Htier. discriminate Htier.
Qed.

(** An attachment on a message longer than 2000 characters goes to the
    reasoning tier. *)
Example long_image_message :
  let d := fst (route default_optimizer (replicate 2001 "a") true clock0) in
  intent d = INTENT_IMAGE_ANALYSIS /\ model_tier d = TIER_REASONING.
Proof. vm_compute. split; reflexivity. Qed.

Lemma candidate_tier_image message :
  candidate_tier message true
  = if (PyStr.len (PyStr.strip message) >? 2000)%Z
    then TIER_REASONING else TIER_VISION.
Proof.
  unfold candidate_tier, select_model.
  destruct (PyStr.len (PyStr.strip message) >? 2000)%Z; reflexivity.
Qed.

(** C2 (amended): for every message with an image attachment, routing
    yields intent [image_analysis]; the tier proposed is vision for a
    trimmed length of at most 2000 characters and reasoning above that;
    the final tier is the proposed one when neither limit of the guard
    triggers, and standard, marked downgraded, when one does. *)
Theorem image_attachment_routing :
  forall self message clk,
    let d := fst (route self message true clk) in
    intent d = INTENT_IMAGE_ANALYSIS
    /\ candidate_tier message true
       = (if (PyStr.len (PyStr.strip message) >? 2000)%Z
          then TIER_REASONING else TIER_VISION)
    /\ model_tier d = (if lets_through self (now clk)
                       then candidate_tier message true else TIER_STANDARD)
    /\ downgraded d = negb (lets_through self (now clk)).
Proof.
  intros self message clk d.
  pose proof (candidate_tier_image message) as Hcand.
  assert (Hs : in_STRONG_TIERS (candidate_tier message true) = true).
  { rewrite Hcand. destruct (_ >? _)%Z; reflexivity. }
  split; [| split; [exact Hcand |]].
  - unfold d. rewrite route_unfold. cbn zeta.
    destruct (locked_section _ _ _). reflexivity.
  - unfold d, lets_through. rewrite route_unfold. cbn zeta.
    fold (record_size (_expire_old_spike_events self (now clk))).
    destruct (Z.ltb_spec (consecutive_strong self) (max_consecutive_strong self))
      as [Hc | Hc].
    + destruct (Z.ltb_spec (record_size (_expire_old_spike_events self (now clk)))
                  (spike_threshold self)) as [Hr | Hr].
      * rewrite (locked_accept _ _ _ Hs Hc Hr). split; reflexivity.
      * rewrite (locked_usage_spike _ _ _ Hs Hc Hr). split; reflexivity.
    + rewrite (locked_consecutive_limit _ _ _ Hs Hc). split; reflexivity.
Qed.

(** ** Streaming emitter *)

Section Splitting.

Import PyStr.

Lemma split_on_not_nil sep s : split_on sep s <> [].
Proof.
  destruct s as [| c s]; cbn; [discriminate |].
  destruct (Ascii.eqb c sep); [discriminate |].
  destruct (split_on sep s); discriminate.
Qed.

(** Cutting at a separator and gluing the fields back with it is the
    identity. *)
Lemma join_split_on sep s : join (String sep EmptyString) (split_on sep s) = s.
Proof.
  induction s as [| c s IH]; [reflexivity |].
  cbn [split_on].
  destruct (Ascii.eqb_spec c sep) as [-> | Hne].
  - pose proof (split_on_not_nil sep s) as Hnn.
    destruct (split_on sep s) as [| w ws]; [congruence |].
    change (join (String sep EmptyString) (EmptyString :: w :: ws))
      with (String sep (join (String sep EmptyString) (w :: ws))).
    rewrite IH. reflexivity.
  - pose proof (split_on_not_nil sep s) as Hnn.
    destruct (split_on sep s) as [| w ws]; [congruence |].
    destruct ws as [| w2 ws].
    + cbn in *. rewrite IH. reflexivity.
    + change (join (String sep EmptyString) (String c w :: w2 :: ws))
        with (String c (w ++ String sep EmptyString
                          ++ join (String sep EmptyString) (w2 :: ws))).
      change (join (String sep EmptyString) (w :: w2 :: ws))
        with (w ++ String sep EmptyString
                ++ join (String sep EmptyString) (w2 :: ws)) in IH.
      rewrite IH. reflexivity.
Qed.

Lemma space_is_space : is_space " " = true.
Proof. reflexivity. Qed.

Lemma not_space_not_blank c : is_space c = false -> Ascii.eqb c " " = false.
Proof.
  intro H. destruct (Ascii.eqb_spec c " ") as [-> | _]; [| reflexivity].
  rewrite space_is_space in H. discriminate.
Qed.

Lemma split_on_word w : no_space w = true -> split_on " " w = [w].
Proof.
  induction w as [| c w IH]; [reflexivity |].
  cbn. intros [Hc Hw]%andb_prop. apply negb_true_iff in Hc.
  rewrite (not_space_not_blank _ Hc), (IH Hw). reflexivity.
Qed.

Lemma split_on_word_app w rest :
  no_space w = true ->
  split_on " " (w ++ String " " rest) = w :: split_on " " rest.
Proof.
  induction w as [| c w IH]; [reflexivity |].
  cbn. intros [Hc Hw]%andb_prop. apply negb_true_iff in Hc.
  rewrite (not_space_not_blank _ Hc), (IH Hw). reflexivity.
Qed.

Lemma split_ws_word w : plain_word w = true -> split_ws w = [w].
Proof.
  unfold plain_word.
  induction w as [| c w IH]; [discriminate |].
  cbn [is_empty negb andb no_space].
  intros [Hc Hw]%andb_prop. apply negb_true_iff in Hc.
  cbn [split_ws]. rewrite Hc.
  destruct w as [| d w]; [reflexivity |].
  assert (Hd : is_space d = false).
  { cbn in Hw. apply andb_prop in Hw. destruct Hw as [Hd _].
    now apply negb_true_iff in Hd. }
  rewrite Hd. rewrite (IH Hw). reflexivity.
Qed.

Lemma split_ws_word_app w rest :
  plain_word w = true ->
  split_ws (w ++ String " " rest) = w :: split_ws rest.
Proof.
  unfold plain_word.
  induction w as [| c w IH]; [discriminate |].
  cbn [is_empty negb andb no_space].
  intros [Hc Hw]%andb_prop. apply negb_true_iff in Hc.
  change (String c w ++ String " " rest)
    with (String c (w ++ String " " rest)).
  cbn [split_ws]. rewrite Hc.
  destruct w as [| d w].
  - cbn [append]. rewrite space_is_space. reflexivity.
  - assert (Hd : is_space d = false).
    { cbn in Hw. apply andb_prop in Hw. destruct Hw as [Hd _].
      now apply negb_true_iff in Hd. }
    change (String d w ++ String " " rest)
      with (String d (w ++ String " " rest)).
    cbv beta iota. rewrite Hd.
    change (String d (w ++ String " " rest))
      with (String d w ++ String " " rest).
    rewrite (IH Hw). reflexivity.
Qed.

(** On words separated by single spaces the two ways of splitting agree. *)
Lemma split_single_spaced ws :
  ws <> [] -> forallb plain_word ws = true ->
  split_on " " (join " " ws) = ws /\ split_ws (join " " ws) = ws.
Proof.
  induction ws as [| w ws IH]; [congruence |].
  intros _ Hall. cbn [forallb] in Hall.
  apply andb_prop in Hall. destruct Hall as [Hw Hws].
  assert (Hns : no_space w = true).
  { unfold plain_word in Hw. apply andb_prop in Hw. tauto. }
  destruct ws as [| w2 ws].
  - cbn [join]. split; [apply split_on_word | apply split_ws_word]; assumption.
  - change (join " " (w :: w2 :: ws))
      with (w ++ String " " (join " " (w2 :: ws))).
    destruct IH as [IH1 IH2]; [discriminate | exact Hws |].
    rewrite (split_on_word_app _ _ Hns), (split_ws_word_app _ _ Hw), IH1, IH2.
    split; reflexivity.
Qed.

End Splitting.

Lemma chunk_texts_app f1 f2 :
  chunk_texts (f1 ++ f2) = (chunk_texts f1 ++ chunk_texts f2)%list.
Proof.
  induction f1 as [| f f1 IH]; [reflexivity |].
  destruct f; cbn; rewrite IH; reflexivity.
Qed.

Lemma chunk_texts_chunk_frames t :
  chunk_texts (chunk_frames t) = map (fun w => w ++ " ") (PyStr.split_on " " t).
Proof.
  unfold chunk_frames.
  induction (PyStr.split_on " " t) as [| w ws IH]; [reflexivity |].
  cbn. rewrite IH. reflexivity.
Qed.

Lemma append_assoc_str (a b c : string) : (a ++ b) ++ c = a ++ (b ++ c).
Proof. induction a as [| x a IH]; cbn; [reflexivity | now rewrite IH]. Qed.

(** Gluing the chunk payloads gives the text back, with one more space. *)
Lemma concat_fields_with_space ws :
  ws <> [] ->
  concat_str (map (fun w => w ++ " ") ws) = PyStr.join " " ws ++ " ".
Proof.
  induction ws as [| w ws IH]; [congruence |]. intros _.
  destruct ws as [| w2 ws].
  - cbn. induction w as [| x w IHw]; cbn; [reflexivity | now rewrite IHw].
  - change (PyStr.join " " (w :: w2 :: ws))
      with (w ++ " " ++ PyStr.join " " (w2 :: ws)).
    cbn [map concat_str] in *. rewrite IH by discriminate.
    rewrite !append_assoc_str. reflexivity.
Qed.

(** The frames in terms of the fields [split(" ")] cuts: gluing the chunk
    payloads gives the text back with one more space, and on words
    separated by single spaces the fields are the whitespace-delimited
    words. *)
Lemma yielded_frames_fields :
  forall route0 ic m,
    let frames := yielded_frames route0 ic m in
    let fields := PyStr.split_on " " (display_text m) in
    (exists meta chunks done,
        frames = ([meta] ++ chunks ++ [done])%list
        /\ is_meta meta = true /\ is_done done = true
        /\ forallb is_chunk chunks = true
        /\ chunks = map (fun w => Chunk (w ++ " ")) fields)
    /\ chunk_texts frames = map (fun w => w ++ " ") fields
    /\ concat_str (chunk_texts frames) = display_text m ++ " "
    /\ (forall ws, ws <> [] -> forallb plain_word ws = true ->
        display_text m = PyStr.join " " ws ->
        fields = ws /\ PyStr.split_ws (display_text m) = ws
        /\ chunk_texts frames = map (fun w => w ++ " ") ws)
    /\ (display_text m = "a b c" ->
        exists meta done,
          is_meta meta = true /\ is_done done = true
          /\ frames = [meta; Chunk "a "; Chunk "b "; Chunk "c "; done]).
Proof.
  intros route0 ic m frames fields.
  assert (Hct : chunk_texts frames = map (fun w => w ++ " ") fields).
  { unfold frames, yielded_frames. rewrite !chunk_texts_app.
    rewrite chunk_texts_chunk_frames. cbn. rewrite app_nil_r. reflexivity. }
  split; [| split; [exact Hct | split; [| split]]].
  - eexists _, _, _. split; [reflexivity |].
    split; [reflexivity | split; [reflexivity | split; [| reflexivity]]].
    unfold chunk_frames. fold fields. clear Hct.
    generalize fields. intro l.
    induction l as [| w ws IH]; [reflexivity | exact IH].
  - rewrite Hct. unfold fields.
    rewrite concat_fields_with_space by apply split_on_not_nil.
    change " "%string with (String " "%char EmptyString) at 1.
    rewrite join_split_on. reflexivity.
  - intros ws Hnn Hall Htext.
    destruct (split_single_spaced ws Hnn Hall) as [H1 H2].
    assert (Hf : fields = ws) by (unfold fields; rewrite Htext; exact H1).
    split; [exact Hf | split; [rewrite Htext; exact H2 |]].
    rewrite Hct, Hf. reflexivity.
  - intros Habc. eexists _, _.
    split; [| split]; [| | unfold frames, yielded_frames, chunk_frames;
                             rewrite Habc; reflexivity]; reflexivity.
Qed.

(** ** Intent classifier *)

Section KeywordSearch.

Import PyStr Re.

Lemma space_not_word c : is_space c = true -> is_word c = false.
Proof.
  destruct c as [[] [] [] [] [] [] [] []]; vm_compute;
    first [reflexivity | discriminate].
Qed.

Lemma is_word_lower c : is_word (lower c) = is_word c.
Proof. destruct c as [[] [] [] [] [] [] [] []]; reflexivity. Qed.

Lemma eqb_ci_is_word a c : eqb_ci a c = true -> is_word c = is_word a.
Proof.
  unfold eqb_ci. intro H. apply Ascii.eqb_eq in H.
  rewrite <- (is_word_lower c), <- H. apply is_word_lower.
Qed.

(** Only the class of the previous character matters. *)
Lemma match_lit_prev w p1 p2 s :
  is_word_opt p1 = is_word_opt p2 -> match_lit w p1 s = match_lit w p2 s.
Proof.
  intro H. destruct w as [| a w]; cbn; [| reflexivity].
  unfold boundary. rewrite H. reflexivity.
Qed.

Lemma match_at_prev p p1 p2 s :
  is_word_opt p1 = is_word_opt p2 -> match_at p p1 s = match_at p p2 s.
Proof.
  intro H. unfold match_at, boundary. rewrite H. f_equal.
  induction p as [| w p IH]; [reflexivity |].
  cbn. rewrite IH, (match_lit_prev w p1 p2 s H). reflexivity.
Qed.

Lemma search_from_prev p p1 p2 s :
  is_word_opt p1 = is_word_opt p2 -> search_from p p1 s = search_from p p2 s.
Proof.
  intro H. destruct s as [| c s]; cbn; rewrite (match_at_prev p p1 p2 _ H);
    reflexivity.
Qed.

Lemma search_from_cons p prev c s :
  search_from p prev (String c s)
  = match_at p prev (String c s) || search_from p (Some c) s.
Proof. reflexivity. Qed.

(** Leading whitespace holds no match. *)
Lemma search_lstrip p s : search p (lstrip s) = search p s.
Proof.
  unfold search. induction s as [| c s IH]; [reflexivity |].
  cbn [lstrip]. destruct (is_space c) eqn:Hc; [| reflexivity].
  rewrite search_from_cons.
  assert (Hw : is_word c = false) by (apply space_not_word; exact Hc).
  unfold match_at at 1. unfold boundary at 1. cbn [head is_word_opt].
  rewrite Hw. cbn [xorb andb orb].
  rewrite (search_from_prev p (Some c) None s) by (cbn; exact Hw).
  exact IH.
Qed.

Lemma rstrip_cons c s :
  rstrip (String c s)
  = if is_empty (rstrip s) && is_space c then EmptyString
    else String c (rstrip s).
Proof.
  cbn [rstrip]. destruct (rstrip s); cbn; [| reflexivity].
  destruct (is_space c); reflexivity.
Qed.

Lemma head_rstrip s : is_word_opt (head (rstrip s)) = is_word_opt (head s).
Proof.
  destruct s as [| c s]; [reflexivity |].
  rewrite rstrip_cons.
  destruct (is_empty (rstrip s) && is_space c) eqn:E; [| reflexivity].
  apply andb_prop in E. destruct E as [_ Hc].
  cbn. symmetry. apply space_not_word. exact Hc.
Qed.

Lemma match_lit_empty_text w c :
  is_space c = true -> match_lit w (Some c) EmptyString = false.
Proof.
  intro Hc. destruct w as [| a w]; [| reflexivity].
  cbn. unfold boundary. cbn. rewrite (space_not_word c Hc). reflexivity.
Qed.

Lemma match_lit_rstrip w : forall last s,
  match_lit w last (rstrip s) = match_lit w last s.
Proof.
  induction w as [| a w IH]; intros last s.
  - cbn. unfold boundary. rewrite head_rstrip. reflexivity.
  - destruct s as [| c s]; [reflexivity |].
    rewrite rstrip_cons.
    destruct (is_empty (rstrip s) && is_space c) eqn:E.
    + apply andb_prop in E. destruct E as [He Hc].
      cbn [match_lit]. rewrite <- (IH (Some c) s).
      destruct (rstrip s); [| discriminate].
      rewrite (match_lit_empty_text w c Hc), andb_false_r. reflexivity.
    + cbn [match_lit]. rewrite IH. reflexivity.
Qed.

Lemma match_at_rstrip p prev s :
  match_at p prev (rstrip s) = match_at p prev s.
Proof.
  unfold match_at, boundary. rewrite head_rstrip. f_equal.
  induction p as [| w p IH]; [reflexivity |].
  cbn. rewrite IH, match_lit_rstrip. reflexivity.
Qed.

(** Trailing whitespace holds no match either. *)
Lemma search_from_rstrip p : forall s prev,
  search_from p prev (rstrip s) = search_from p prev s.
Proof.
  induction s as [| c s IH]; intros prev; [reflexivity |].
  rewrite search_from_cons, <- (match_at_rstrip p prev (String c s)),
    <- (IH (Some c)).
  rewrite rstrip_cons.
  destruct (is_empty (rstrip s) && is_space c) eqn:E.
  - apply andb_prop in E. destruct E as [He Hc].
    destruct (rstrip s); [| discriminate].
    cbn [search_from]. rewrite orb_false_r.
    unfold match_at at 3. unfold boundary. cbn [head is_word_opt].
    rewrite (space_not_word c Hc). cbn. rewrite orb_false_r. reflexivity.
  - rewrite search_from_cons. reflexivity.
Qed.

Lemma search_strip p s : search p (strip s) = search p s.
Proof.
  unfold strip, search. rewrite search_from_rstrip.
  apply search_lstrip.
Qed.

End KeywordSearch.

Section KeywordOccurrence.

Import PyStr Re.

Lemma last_char_from_cons prev a w :
  last_char_from prev (String a w) = last_char_from (Some a) w.
Proof. reflexivity. Qed.

(** A keyword spelled in the text, ending at a non-word character,
    matches where it starts. *)
Lemma match_lit_occurrence kw : forall k last post,
  eq_ci kw k = true ->
  kw <> EmptyString ->
  is_word_opt (last_char kw) = true ->
  is_word_opt (head post) = false ->
  match_lit kw last (k ++ post) = true.
Proof.
  induction kw as [| a kw IH]; intros k last post Heq Hne Hlast Hpost;
    [congruence |].
  destruct k as [| c k]; [discriminate |].
  cbn in Heq. apply andb_prop in Heq. destruct Heq as [Hac Heq].
  cbn [append match_lit]. rewrite Hac. cbn [andb].
  destruct kw as [| b kw].
  - destruct k; [| discriminate].
    cbn. unfold boundary. rewrite Hpost. cbn.
    rewrite (eqb_ci_is_word a c Hac), xorb_false_r. exact Hlast.
  - apply IH; [exact Heq | discriminate | | exact Hpost].
    unfold last_char in *. rewrite last_char_from_cons in Hlast.
    rewrite last_char_from_cons. rewrite last_char_from_cons in Hlast.
    exact Hlast.
Qed.

Lemma head_occurrence kw k post :
  eq_ci kw k = true -> is_word_opt (head kw) = true ->
  is_word_opt (head (k ++ post)) = true.
Proof.
  destruct kw as [| a kw]; [discriminate |].
  destruct k as [| c k]; [discriminate |].
  cbn. intros [Hac _]%andb_prop Ha.
  rewrite (eqb_ci_is_word a c Hac). exact Ha.
Qed.

Lemma search_from_occurrence p kw k post :
  In kw p -> eq_ci kw k = true -> word_edged kw = true ->
  is_word_opt (head post) = false ->
  forall pre prev,
    is_word_opt (last_char_from prev pre) = false ->
    search_from p prev (pre ++ k ++ post) = true.
Proof.
  intros Hin Heq Hedge Hpost.
  unfold word_edged in Hedge. apply andb_prop in Hedge.
  destruct Hedge as [Hhead Hlast].
  assert (Hne : kw <> EmptyString) by (destruct kw; [discriminate | discriminate]).
  induction pre as [| x pre IH]; intros prev Hprev.
  - cbn [append last_char_from] in *.
    assert (Hm : match_at p prev (k ++ post) = true).
    { unfold match_at, boundary.
      rewrite Hprev, (head_occurrence kw k post Heq Hhead). cbn.
      apply existsb_exists. exists kw. split; [exact Hin |].
      apply match_lit_occurrence; assumption. }
    destruct (k ++ post); cbn [search_from]; rewrite Hm; reflexivity.
  - change (String x pre ++ k ++ post) with (String x (pre ++ k ++ post)).
    rewrite search_from_cons. rewrite (IH (Some x) Hprev).
    apply orb_true_r.
Qed.

(** The search finds every whole-word occurrence of a keyword. *)
Lemma search_complete p message :
  forallb word_edged p = true ->
  contains_keyword p message -> search p message = true.
Proof.
  intros Hedges (pre & k & post & kw & -> & Hin & Heq & Hpre & Hpost).
  unfold search. apply (search_from_occurrence p kw); try assumption.
  rewrite forallb_forall in Hedges. exact (Hedges kw Hin).
Qed.

(** The classifier's second test decides as soon as it succeeds. *)
Lemma detect_intent_image_search message :
  search IMAGE_PATTERN message = true ->
  detect_intent message = INTENT_IMAGE_ANALYSIS.
Proof.
  intro H. rewrite <- search_strip in H. unfold detect_intent.
  destruct (strip message) eqn:E; [discriminate H |].
  cbn [is_empty]. rewrite H. reflexivity.
Qed.

End KeywordOccurrence.

(** C8: for every message that contains an image/visual keyword as a
    whole word, in any letter case, [detect_intent] returns
    [image_analysis], whatever else the message holds: debugging or coding
    keywords do not change it, the image test coming first among the
    keyword tests. (Such a message is not blank.) *)
Theorem image_keyword_has_priority :
  forall message,
    contains_keyword IMAGE_PATTERN message ->
    detect_intent message = INTENT_IMAGE_ANALYSIS.
Proof.
  intros message H.
  apply detect_intent_image_search.
  apply search_complete; [reflexivity | exact H].
Qed.

Lemma image_keyword_has_priority_witness :
  contains_keyword IMAGE_PATTERN "fix the bug in my python code, see Screenshot!"
  /\ Re.search DEBUG_PATTERN "fix the bug in my python code, see Screenshot!" = true
  /\ Re.search CODING_PATTERN "fix the bug in my python code, see Screenshot!" = true
  /\ detect_intent "fix the bug in my python code, see Screenshot!"
     = INTENT_IMAGE_ANALYSIS.
Proof.
  assert (H : contains_keyword IMAGE_PATTERN
                "fix the bug in my python code, see Screenshot!").
  { exists "fix the bug in my python code, see ", "Screenshot", "!", "screenshot".
    repeat split; try reflexivity. cbn. tauto. }
  split; [exact H |].
  split; [reflexivity |].
  split; [reflexivity |].
  apply (image_keyword_has_priority
           "fix the bug in my python code, see Screenshot!" H).
Defined.

(** * Further properties of the pipeline *)

(** ** What a routing decision can look like *)

Section DecisionShape.

Local Open Scope Z_scope.

(** One call of the critical section either appends the reading and
    lengthens the streak, or leaves the pruned record and zeroes the
    streak; which of the two is told by the final tier. *)
Lemma locked_step self tier now :
  let pruned := strong_requests (_expire_old_spike_events self now) in
  let adm := fst (locked_section self tier now) in
  let self' := snd (locked_section self tier now) in
  (in_STRONG_TIERS (adm_tier adm) = true
   /\ adm = mkAdmission tier false None
   /\ in_STRONG_TIERS tier = true
   /\ strong_requests self' = (pruned ++ [now])%list
   /\ consecutive_strong self' = consecutive_strong self + 1
   /\ consecutive_strong self < max_consecutive_strong self
   /\ record_size (_expire_old_spike_events self now) < spike_threshold self)
  \/ (in_STRONG_TIERS (adm_tier adm) = false
      /\ strong_requests self' = pruned
      /\ consecutive_strong self' = 0
      /\ ((in_STRONG_TIERS tier = false /\ adm = mkAdmission tier false None)
          \/ (in_STRONG_TIERS tier = true
              /\ max_consecutive_strong self <= consecutive_strong self
              /\ adm = mkAdmission TIER_STANDARD true
                         (Some "consecutive_strong_limit"))
          \/ (in_STRONG_TIERS tier = true
              /\ consecutive_strong self < max_consecutive_strong self
              /\ spike_threshold self
                 <= record_size (_expire_old_spike_events self now)
              /\ adm = mkAdmission TIER_STANDARD true (Some "usage_spike")))).
Proof.
  cbn zeta.
  destruct (in_STRONG_TIERS tier) eqn:Hs.
  - destruct (Z_lt_le_dec (consecutive_strong self) (max_consecutive_strong self))
      as [Hc | Hc].
    + destruct (Z_lt_le_dec (record_size (_expire_old_spike_events self now))
                  (spike_threshold self)) as [Hr | Hr].
      * rewrite (locked_accept _ _ _ Hs Hc Hr). left. cbn [fst snd adm_tier].
        rewrite Hs. cbn. repeat split; assumption.
      * rewrite (locked_usage_spike _ _ _ Hs Hc Hr). right. cbn.
        repeat split. right. right. repeat split; assumption.
    + rewrite (locked_consecutive_limit _ _ _ Hs Hc). right. cbn.
      repeat split. right. left. repeat split; assumption.
  - rewrite (locked_not_strong _ _ _ Hs). right. cbn [fst snd adm_tier].
    rewrite Hs. cbn. repeat split. left. split; reflexivity.
Qed.

Lemma route_decision self message has_image clk :
  let adm := fst (locked_section self (candidate_tier message has_image) (now clk)) in
  let d := fst (route self message has_image clk) in
  model_tier d = adm_tier adm /\ downgraded d = adm_downgraded adm
  /\ reason d = adm_reason adm.
Proof.
  cbn zeta. rewrite route_unfold. cbn zeta.
  destruct (locked_section _ _ _). cbn. repeat split.
Qed.

(** The fields of a decision of [route] fit together: it is downgraded
    exactly when a limit's reason is recorded; a downgraded decision has
    the standard tier and came from a strong proposal; any other decision
    carries the proposed tier and no reason. [route] itself never reports
    a routing failure, and never moves a request to a stronger tier. *)
Theorem route_decision_coherent :
  forall self message has_image clk,
    let d := fst (route self message has_image clk) in
    let proposed := candidate_tier message has_image in
    (downgraded d = true
     <-> reason d = Some "consecutive_strong_limit"
         \/ reason d = Some "usage_spike")
    /\ (downgraded d = true ->
        model_tier d = TIER_STANDARD /\ in_STRONG_TIERS proposed = true)
    /\ (downgraded d = false -> model_tier d = proposed /\ reason d = None)
    /\ reason d <> Some "routing_failure"
    /\ (in_STRONG_TIERS (model_tier d) = true -> model_tier d = proposed).
Proof.
  intros self message has_image clk d proposed.
  destruct (route_decision self message has_image clk) as (Ht & Hd & Hr).
  fold d in Ht, Hd, Hr. fold proposed in Ht, Hd, Hr.
  rewrite Ht, Hd, Hr.
  destruct (locked_step self proposed (now clk))
    as [(_ & -> & Hs & _) | (_ & _ & _ & [[Hs ->] | [(Hs & _ & ->) | (Hs & _ & _ & ->)]])];
    cbn; repeat split; try discriminate; try tauto; try assumption;
    try (intros [H | H]; discriminate H); try (left; reflexivity);
    try (right; reflexivity).
Qed.

End DecisionShape.

(** ** What the two limits guarantee over a run *)

Section RunGuarantees.

Local Open Scope Z_scope.

Lemma route_step self r :
  let d := fst (route self (req_message r) (req_has_image r) (req_clock r)) in
  let self' := snd (route self (req_message r) (req_has_image r) (req_clock r)) in
  let pruned := strong_requests (_expire_old_spike_events self (req_now r)) in
  max_consecutive_strong self' = max_consecutive_strong self
  /\ spike_threshold self' = spike_threshold self
  /\ spike_window_seconds self' = spike_window_seconds self
  /\ ((strong_decision d = true
       /\ strong_requests self' = (pruned ++ [req_now r])%list
       /\ consecutive_strong self' = consecutive_strong self + 1
       /\ consecutive_strong self < max_consecutive_strong self
       /\ record_size (_expire_old_spike_events self (req_now r))
          < spike_threshold self)
      \/ (strong_decision d = false
          /\ strong_requests self' = pruned
          /\ consecutive_strong self' = 0)).
Proof.
  cbn zeta. rewrite route_state.
  destruct (route_decision self (req_message r) (req_has_image r) (req_clock r))
    as (Ht & _).
  unfold strong_decision. rewrite Ht.
  fold (req_candidate r). fold (req_now r).
  destruct (locked_config self (req_candidate r) (req_now r)) as (Em & Es & Ew).
  repeat (split; [assumption |]).
  destruct (locked_step self (req_candidate r) (req_now r))
    as [(Hs & _ & _ & Hrec & Hcnt & Hc & Hr) | (Hs & Hrec & Hcnt & _)].
  - left. repeat split; assumption.
  - right. repeat split; assumption.
Qed.

Lemma route_all_step self r reqs :
  route_all self (r :: reqs)
  = (fst (route self (req_message r) (req_has_image r) (req_clock r))
       :: fst (route_all
                 (snd (route self (req_message r) (req_has_image r) (req_clock r)))
                 reqs),
     snd (route_all
            (snd (route self (req_message r) (req_has_image r) (req_clock r)))
            reqs)).
Proof.
  cbn [route_all].
  destruct (route self (req_message r) (req_has_image r) (req_clock r))
    as [d self1]. cbn [fst snd].
  destruct (route_all self1 reqs). reflexivity.
Qed.

Lemma peak_streak_ge k ds : k <= peak_streak k ds.
Proof. destruct ds; cbn; lia. Qed.

(** The counter is the streak of strong decisions, and along the run the
    streak stays within the limit. *)
Lemma route_all_streak reqs : forall self,
  0 <= consecutive_strong self <= max_consecutive_strong self ->
  let ds := fst (route_all self reqs) in
  consecutive_strong (snd (route_all self reqs))
  = streak_after (consecutive_strong self) ds
  /\ peak_streak (consecutive_strong self) ds <= max_consecutive_strong self.
Proof.
  induction reqs as [| r reqs IH]; intros self Hc; cbn zeta.
  - cbn. lia.
  - rewrite route_all_step. cbn [fst snd streak_after peak_streak].
    destruct (route_step self r) as (Em & _ & _ & Hstep).
    set (d := fst (route self (req_message r) (req_has_image r) (req_clock r))) in *.
    set (self1 := snd (route self (req_message r) (req_has_image r) (req_clock r))) in *.
    destruct Hstep as [(Hs & _ & Hcnt & Hlt & _) | (Hs & _ & Hcnt)]; rewrite Hs.
    + destruct (IH self1) as [IH1 IH2]; [lia |].
      rewrite Hcnt, Em in *. split; [exact IH1 | lia].
    + destruct (IH self1) as [IH1 IH2]; [lia |].
      rewrite Hcnt, Em in *. split; [exact IH1 | lia].
Qed.

End RunGuarantees.

(** On a fresh guard with [max_consecutive_strong = m >= 0], no run of
    calls ever produces more than [m] strong-tier decisions in a row, and
    the counter the guard holds is the length of the streak of strong
    decisions the run ends with. *)
Theorem strong_streak_never_exceeds_limit :
  forall (m s w : Z) (reqs : list Request),
    (0 <= m)%Z ->
    let ds := fst (route_all (new_optimizer m s w) reqs) in
    (peak_streak 0 ds <= m)%Z
    /\ consecutive_strong (snd (route_all (new_optimizer m s w) reqs))
       = streak_after 0 ds.
Proof.
  intros m s w reqs Hm ds.
  destruct (route_all_streak reqs (new_optimizer m s w)) as [H1 H2];
    [cbn; lia |].
  split; [exact H2 | exact H1].
Qed.

Lemma strong_streak_never_exceeds_limit_witness :
  let reqs := map debug_request [1; 2; 3; 4; 5; 6; 7; 8; 9]%Z in
  (0 <= 3)%Z
  /\ let ds := fst (route_all (new_optimizer 3 100 60) reqs) in
     (peak_streak 0 ds <= 3)%Z
     /\ consecutive_strong (snd (route_all (new_optimizer 3 100 60) reqs))
        = streak_after 0 ds.
Proof.
  intro reqs. split; [lia |].
  apply (strong_streak_never_exceeds_limit 3 100 60 reqs). lia.
Defined.

Section WindowGuarantees.

Local Open Scope Z_scope.

(** What pruning drops is below the threshold. *)
Lemma popleft_split thr q :
  exists dropped,
    q = (dropped ++ popleft_while_below thr q)%list
    /\ Forall (fun t => (t < thr)%Q) dropped.
Proof.
  induction q as [| t q (dropped & IH & Hd)]; cbn.
  - exists []. split; [reflexivity | constructor].
  - destruct (Qltb t thr) eqn:E.
    + exists (t :: dropped). split; [cbn; f_equal; exact IH |].
      constructor; [apply Qltb_true; exact E | exact Hd].
    + exists []. split; [reflexivity | constructor].
Qed.

Lemma count_since_app thr a b :
  count_since thr (a ++ b) = (count_since thr a + count_since thr b)%nat.
Proof. unfold count_since. rewrite filter_app, length_app. reflexivity. Qed.

Lemma count_since_below thr l :
  Forall (fun t => (t < thr)%Q) l -> count_since thr l = 0%nat.
Proof.
  unfold count_since. induction 1 as [| t l Ht _ IH]; [reflexivity |].
  cbn. apply Qltb_true in Ht. rewrite Ht. exact IH.
Qed.

Lemma count_since_le thr l : (count_since thr l <= List.length l)%nat.
Proof. unfold count_since. apply filter_length_le. Qed.

Lemma last_cons (l : list Q) : forall a d, last (a :: l) d = last l a.
Proof.
  induction l as [| b l IH]; intros a d; [reflexivity |].
  change (last (a :: b :: l) d) with (last (b :: l) d).
  rewrite (IH b d), (IH b a). reflexivity.
Qed.

Lemma last_now_cons hi r reqs : last_now hi (r :: reqs) = last_now (req_now r) reqs.
Proof. unfold last_now. cbn [map]. apply last_cons. Qed.

Lemma route_window_step hi history self r :
  window_inv hi history self -> (hi <= req_now r)%Q ->
  let d := fst (route self (req_message r) (req_has_image r) (req_clock r)) in
  let self' := snd (route self (req_message r) (req_has_image r) (req_clock r)) in
  window_inv (req_now r)
    (history ++ (if strong_decision d then [req_now r] else []))%list self'.
Proof.
  intros (dropped & Hh & Hd) Hhi. cbn zeta.
  destruct (route_step self r) as (_ & _ & Ew & Hstep).
  destruct (popleft_split (req_now r - inject_Z (spike_window_seconds self))
              (strong_requests self)) as (dr & Hsplit & Hdr).
  change (popleft_while_below _ _)
    with (strong_requests (_expire_old_spike_events self (req_now r))) in Hsplit.
  assert (Hall : Forall (fun t => (t < req_now r - inject_Z (spike_window_seconds self))%Q)
                   (dropped ++ dr)).
  { apply Forall_app. split; [| exact Hdr].
    eapply Forall_impl; [| exact Hd]. cbn. intros t Ht. lra. }
  unfold window_inv. rewrite Ew. exists (dropped ++ dr)%list.
  split; [| exact Hall].
  destruct Hstep as [(Hs & Hrec & _) | (Hs & Hrec & _)]; rewrite Hs, Hrec, Hh.
  - rewrite Hsplit at 1. rewrite <- !app_assoc. reflexivity.
  - rewrite app_nil_r. rewrite Hsplit at 1. rewrite <- app_assoc. reflexivity.
Qed.

Lemma strong_times_cons r reqs d ds :
  strong_times (r :: reqs) (d :: ds)
  = ((if strong_decision d then [req_now r] else []) ++ strong_times reqs ds)%list.
Proof. cbn. destruct (strong_decision d); reflexivity. Qed.

Lemma route_all_window reqs : forall hi history self,
  window_inv hi history self ->
  nondecreasing (hi :: map req_now reqs) ->
  window_inv (last_now hi reqs)
    (history ++ strong_times reqs (fst (route_all self reqs)))%list
    (snd (route_all self reqs)).
Proof.
  induction reqs as [| r reqs IH]; intros hi history self Hinv Hclk.
  - cbn. rewrite app_nil_r. exact Hinv.
  - destruct Hclk as [Hhi Hrest].
    rewrite route_all_step, last_now_cons. cbn [fst snd].
    rewrite strong_times_cons, app_assoc.
    apply IH; [| exact Hrest].
    apply (route_window_step hi); assumption.
Qed.

Lemma route_all_record_bound reqs : forall self,
  record_size self <= spike_threshold self ->
  record_size (snd (route_all self reqs)) <= spike_threshold self.
Proof.
  induction reqs as [| r reqs IH]; intros self H; [exact H |].
  rewrite route_all_step. cbn [snd].
  destruct (route_step self r) as (_ & Es & _ & Hstep).
  pose proof (record_size_expire self (req_now r)) as Hle.
  rewrite <- Es. apply IH. rewrite Es.
  unfold record_size in *.
  destruct Hstep as [(_ & Hrec & _ & _ & Hr) | (_ & Hrec & _)]; rewrite Hrec.
  - rewrite length_app. change (List.length [req_now r]) with 1%nat. lia.
  - lia.
Qed.

Lemma route_all_window_seconds reqs : forall self,
  spike_window_seconds (snd (route_all self reqs)) = spike_window_seconds self.
Proof.
  induction reqs as [| r reqs IH]; intros self; [reflexivity |].
  rewrite route_all_step. cbn [snd]. rewrite IH.
  destruct (route_step self r) as (_ & _ & Ew & _). exact Ew.
Qed.

End WindowGuarantees.

(** On a fresh guard with [spike_threshold = s >= 0], the monotonic clock
    never going back from one call to the next: after any run of calls,
    the strong-tier assignments made at readings inside the window that
    trails the latest call number at most [s]. *)
Theorem strong_assignments_in_window_bounded :
  forall (m s w : Z) (reqs : list Request) (hi : Q),
    (0 <= s)%Z ->
    nondecreasing (map req_now reqs) ->
    let ds := fst (route_all (new_optimizer m s w) reqs) in
    (Z.of_nat (count_since (last_now hi reqs - inject_Z w) (strong_times reqs ds))
     <= s)%Z.
Proof.
  intros m s w reqs hi Hs Hclk ds.
  destruct reqs as [| r reqs]; [cbn; lia |].
  destruct (route_all_window (r :: reqs) (req_now r) [] (new_optimizer m s w))
    as (dropped & Hh & Hd).
  - exists []. split; [reflexivity | constructor].
  - split; [apply Qle_refl | exact Hclk].
  - fold ds in Hh. cbn [app] in Hh.
    rewrite route_all_window_seconds in Hd.
    change (spike_window_seconds (new_optimizer m s w)) with w in Hd.
    rewrite last_now_cons in Hd. rewrite last_now_cons.
    rewrite Hh, count_since_app, (count_since_below _ _ Hd).
    pose proof (count_since_le (last_now (req_now r) reqs - inject_Z w)
                  (strong_requests (snd (route_all (new_optimizer m s w) (r :: reqs)))))
      as Hle.
    pose proof (route_all_record_bound (r :: reqs) (new_optimizer m s w)) as Hr.
    unfold record_size in Hr. cbn [new_optimizer strong_requests spike_threshold
                                     List.length] in Hr.
    specialize (Hr Hs). lia.
Qed.

Lemma strong_assignments_in_window_bounded_witness :
  let reqs := map debug_request [1; 2; 3; 4; 70; 71]%Z in
  (0 <= 2)%Z
  /\ nondecreasing (map req_now reqs)
  /\ let ds := fst (route_all (new_optimizer 100 2 60) reqs) in
     (Z.of_nat (count_since (last_now 0 reqs - inject_Z 60) (strong_times reqs ds))
      <= 2)%Z.
Proof.
  intro reqs.
  assert (Hclk : nondecreasing (map req_now reqs)).
  { cbn. repeat split; unfold Qle; cbn; lia. }
  split; [lia | split; [exact Hclk |]].
  apply (strong_assignments_in_window_bounded 100 2 60 reqs 0); [lia | exact Hclk].
Defined.

Section RecordFreshness.

Lemma nondecreasing_head_bound thr l :
  nondecreasing l ->
  match l with [] => True | t :: _ => thr <= t end ->
  Forall (fun t => thr <= t) l.
Proof.
  induction l as [| a l IH]; [constructor |].
  intros [Hhd Htl] Ha. constructor; [exact Ha |].
  apply IH; [exact Htl |].
  destruct l as [| b l]; [exact I | eapply Qle_trans; eassumption].
Qed.

(** Right after a call nothing in the record is older than the window. *)
Lemma route_fresh_step hi self r :
  guard_ordered hi self -> hi <= req_now r ->
  (0 <= spike_window_seconds self)%Z ->
  let self' := snd (route self (req_message r) (req_has_image r) (req_clock r)) in
  Forall (fun t => req_now r - inject_Z (spike_window_seconds self) <= t)
    (strong_requests self').
Proof.
  intros [Hnd Hall] Hhi Hw. cbn zeta.
  set (thr := req_now r - inject_Z (spike_window_seconds self)).
  destruct (popleft_suffix thr (strong_requests self)) as [dropped Hsplit].
  assert (Hpr : Forall (fun t => thr <= t) (popleft_while_below thr (strong_requests self))).
  { apply nondecreasing_head_bound.
    - apply (nondecreasing_suffix dropped). rewrite <- Hsplit. exact Hnd.
    - destruct (popleft_while_below thr (strong_requests self)) as [| t q] eqn:E;
        [exact I | exact (popleft_head_fresh _ _ _ _ E)]. }
  destruct (route_step self r) as (_ & _ & _ & Hstep).
  destruct Hstep as [(_ & Hrec & _) | (_ & Hrec & _)]; rewrite Hrec; cbn.
  - apply Forall_app. split; [exact Hpr |].
    constructor; [| constructor].
    unfold thr.
    assert (0 <= inject_Z (spike_window_seconds self)).
    { unfold Qle. cbn. lia. }
    lra.
  - exact Hpr.
Qed.

Lemma route_all_fresh reqs : forall hi self,
  guard_ordered hi self ->
  nondecreasing (hi :: map req_now reqs) ->
  (0 <= spike_window_seconds self)%Z ->
  reqs <> [] ->
  Forall (fun t => last_now hi reqs - inject_Z (spike_window_seconds self) <= t)
    (strong_requests (snd (route_all self reqs))).
Proof.
  induction reqs as [| r reqs IH]; intros hi self Hord Hclk Hw Hne; [congruence |].
  destruct Hclk as [Hhi Hrest].
  rewrite route_all_step, last_now_cons. cbn [snd].
  destruct reqs as [| r2 reqs].
  - cbn [route_all snd]. apply (route_fresh_step hi); assumption.
  - destruct (route_step self r) as (_ & _ & Ew & _).
    rewrite <- Ew. apply IH.
    + rewrite route_state. apply (locked_ordered hi); assumption.
    + exact Hrest.
    + rewrite Ew. exact Hw.
    + discriminate.
Qed.

End RecordFreshness.

(** On a fresh guard with a window of [w >= 0] seconds, the monotonic
    clock never going back: after any non-empty run of calls, no reading
    left in the record is older than the window that trails the latest
    call. *)
Theorem record_holds_no_reading_older_than_window :
  forall (m s w : Z) (reqs : list Request) (hi : Q),
    (0 <= w)%Z ->
    reqs <> [] ->
    nondecreasing (map req_now reqs) ->
    Forall (fun t => last_now hi reqs - inject_Z w <= t)
      (strong_requests (snd (route_all (new_optimizer m s w) reqs))).
Proof.
  intros m s w reqs hi Hw Hne Hclk.
  destruct reqs as [| r reqs]; [congruence |].
  rewrite last_now_cons, <- (last_now_cons (req_now r)).
  apply (route_all_fresh (r :: reqs) (req_now r) (new_optimizer m s w)).
  - split; [exact I | constructor].
  - split; [apply Qle_refl | exact Hclk].
  - exact Hw.
  - discriminate.
Qed.

Lemma record_holds_no_reading_older_than_window_witness :
  let reqs := map debug_request [1; 2; 3; 4; 70; 71]%Z in
  (0 <= 60)%Z /\ reqs <> [] /\ nondecreasing (map req_now reqs)
  /\ Forall (fun t => last_now 0 reqs - inject_Z 60 <= t)
       (strong_requests (snd (route_all (new_optimizer 100 5 60) reqs))).
Proof.
  intro reqs.
  assert (Hclk : nondecreasing (map req_now reqs)).
  { cbn. repeat split; unfold Qle; cbn; lia. }
  assert (Hne : reqs <> []) by discriminate.
  split; [lia | split; [exact Hne | split; [exact Hclk |]]].
  apply (record_holds_no_reading_older_than_window 100 5 60 reqs 0);
    [lia | exact Hne | exact Hclk].
Defined.

(** ** The stand-in provider under the orchestrator *)

Section ProviderFacts.

Lemma str_length_app (a b : string) :
  String.length (a ++ b) = (String.length a + String.length b)%nat.
Proof. induction a as [| c a IH]; cbn; [reflexivity | now rewrite IH]. Qed.

Lemma take_length n : forall s, (String.length (PyStr.take n s) <= n)%nat.
Proof.
  induction n as [| n IH]; intros s; [cbn; lia |].
  destruct s as [| c s]; cbn; [lia |]. specialize (IH s). lia.
Qed.

Lemma body_of_length intent ic : (String.length (body_of intent ic) <= 99)%nat.
Proof.
  unfold body_of.
  repeat match goal with
         | |- context [if ?b then _ else _] => destruct b
         end; cbn; lia.
Qed.

(** The text of a call that does not raise depends on the message, the
    intent and the image context only: not on the tier, not on the mode. *)
Lemma provider_text_independent d1 d2 c1 c2 :
  call_message c1 = call_message c2 ->
  call_intent c1 = call_intent c2 ->
  call_image_context c1 = call_image_context c2 ->
  _provider_generate d1 c1 <> None ->
  _provider_generate d2 c2 <> None ->
  _provider_generate d1 c1 = _provider_generate d2 c2.
Proof.
  unfold _provider_generate. intros -> -> ->.
  destruct (negb (call_force_stable c1) && d1); [congruence |].
  destruct (negb (call_force_stable c2) && d2); [congruence |].
  reflexivity.
Qed.

Lemma provider_no_draw_succeeds c : _provider_generate false c <> None.
Proof.
  unfold _provider_generate. rewrite andb_false_r.
  destruct (negb (PyStr.is_empty _)); discriminate.
Qed.

Lemma provider_text_opening draw c t :
  _provider_generate draw c = Some t ->
  exists rest, t = "Ghost is active. " ++ rest.
Proof.
  unfold _provider_generate.
  destruct (negb (call_force_stable c) && draw); [discriminate |].
  destruct (negb (PyStr.is_empty _)); intros [= <-]; eexists; reflexivity.
Qed.

Lemma provider_text_length draw c t :
  _provider_generate draw c = Some t -> (String.length t <= 306)%nat.
Proof.
  unfold _provider_generate.
  destruct (negb (call_force_stable c) && draw); [discriminate |].
  set (normalized := PyStr.strip (PyStr.join " " (PyStr.split_ws (call_message c)))).
  pose proof (body_of_length (call_intent c) (call_image_context c)) as Hb.
  pose proof (take_length 180 normalized) as Hp.
  revert Hb Hp.
  generalize (PyStr.take 180 normalized) as preview.
  generalize (body_of (call_intent c) (call_image_context c)) as body.
  intros body preview Hb Hp.
  destruct (negb (PyStr.is_empty normalized)); intros [= <-]; [| cbn; lia].
  repeat first [rewrite str_length_app | progress cbn [String.length]].
  change (String.length dquote) with 1%nat. lia.
Qed.

(** With the stand-in provider the orchestrator's result is the text of
    one call that did not raise. *)
Lemma generate_text_from_provider draw message ic optimizer route_arg clk :
  let r := selected_route message ic optimizer route_arg clk in
  let res := generate_ai_response draw message ic optimizer route_arg clk in
  _provider_generate false (first_call r message ic)
  = Some (text (fst (fst res)))
  /\ route_of (fst (fst res)) = r
  /\ fallback_used (fst (fst res)) = draw
  /\ snd res = (if draw
               then [first_call r message ic; retry_call r message ic]
               else [first_call r message ic])
  /\ snd (fst res)
     = match route_arg with
       | Some _ => optimizer
       | None => snd (route optimizer message (truthy ic) (gen_route_clock clk))
       end.
Proof.
  cbn zeta. unfold generate_ai_response, generate_ai_response_with, selected_route.
  set (sel := match route_arg with
              | Some r0 => (r0, optimizer)
              | None => route optimizer message (truthy ic) (gen_route_clock clk)
              end).
  assert (Hfst : match route_arg with
                 | Some r0 => r0
                 | None => fst (route optimizer message (truthy ic)
                                  (gen_route_clock clk))
                 end = fst sel) by (unfold sel; destruct route_arg; reflexivity).
  assert (Hsnd : match route_arg with
                 | Some _ => optimizer
                 | None => snd (route optimizer message (truthy ic)
                                  (gen_route_clock clk))
                 end = snd sel) by (unfold sel; destruct route_arg; reflexivity).
  rewrite Hfst, Hsnd. destruct sel as [r opt']. cbn [fst snd].
  destruct draw.
  - assert (H1 : _provider_generate true (first_call r message ic) = None)
      by reflexivity.
    destruct (_provider_generate true (retry_call r message ic)) as [t |] eqn:H2;
      [| exfalso; exact (stabilized_retry_succeeds true r message ic H2)].
    rewrite (attempt_retry_ok _ _ _ _ _ H1 H2). cbn [fst snd text route_of fallback_used].
    repeat split.
    rewrite <- H2. apply provider_text_independent; try reflexivity.
    + apply provider_no_draw_succeeds.
    + apply stabilized_retry_succeeds.
  - destruct (_provider_generate false (first_call r message ic)) as [t |] eqn:H1;
      [| exfalso; exact (provider_no_draw_succeeds _ H1)].
    rewrite (attempt_first_ok _ _ _ _ _ H1). cbn. repeat split.
Qed.

End ProviderFacts.

(** With the stand-in provider, an injected fault changes nothing but the
    flag and the number of provider calls: the envelope text, the decision
    and the guard are the same whether or not the fault is drawn, the text
    is never the literal fallback sentence (it always opens with the fixed
    greeting), [fallback_used] is true exactly when the fault was drawn,
    and the provider is called twice then and once otherwise. *)
Theorem injected_fault_only_sets_flag :
  forall draw message ic optimizer route_arg clk,
    let res := generate_ai_response draw message ic optimizer route_arg clk in
    let ref := generate_ai_response false message ic optimizer route_arg clk in
    text (fst (fst res)) = text (fst (fst ref))
    /\ route_of (fst (fst res)) = route_of (fst (fst ref))
    /\ snd (fst res) = snd (fst ref)
    /\ fallback_used (fst (fst res)) = draw
    /\ List.length (snd res) = (if draw then 2 else 1)%nat
    /\ text (fst (fst res)) <> FALLBACK_TEXT
    /\ exists rest, text (fst (fst res)) = "Ghost is active. " ++ rest.
Proof.
  intros draw message ic optimizer route_arg clk res ref.
  destruct (generate_text_from_provider draw message ic optimizer route_arg clk)
    as (Ht & Hr & Hf & Hc & Hg).
  destruct (generate_text_from_provider false message ic optimizer route_arg clk)
    as (Ht0 & Hr0 & _ & _ & Hg0).
  fold res in Ht, Hr, Hf, Hc, Hg. fold ref in Ht0, Hr0, Hg0.
  destruct (provider_text_opening _ _ _ Ht) as [rest Hrest].
  split; [congruence |].
  split; [congruence |].
  split; [congruence |].
  split; [exact Hf |].
  split; [rewrite Hc; destruct draw; reflexivity |].
  split; [rewrite Hrest; discriminate |].
  exists rest. exact Hrest.
Qed.

(** With the stand-in provider the envelope text never exceeds 306
    characters, whatever the length of the message: the fixed opening, the
    longest preamble, and a preview of the message cut to 180 characters. *)
Theorem response_text_bounded :
  forall draw message ic optimizer route_arg clk,
    (PyStr.len (text (fst (fst (generate_ai_response draw message ic optimizer
                                  route_arg clk)))) <= 306)%Z.
Proof.
  intros draw message ic optimizer route_arg clk.
  destruct (generate_text_from_provider draw message ic optimizer route_arg clk)
    as (Ht & _).
  pose proof (provider_text_length _ _ _ Ht) as H.
  unfold PyStr.len. lia.
Qed.

(** The bound is reached: a long debugging message on the image path. *)
Example response_text_bound_reached :
  PyStr.len (text (fst (fst (generate_ai_response false (replicate 200 "x")
                               (Some [("k", "v")]) default_optimizer None
                               genclock0)))) = 306%Z.
Proof. vm_compute. reflexivity. Qed.

(** ** Trimming *)

Section Trimming.

Import PyStr.

Lemma lstrip_blank s : blank s = true -> lstrip s = EmptyString.
Proof.
  induction s as [| c s IH]; [reflexivity |].
  cbn. intros [Hc Hs]%andb_prop. rewrite Hc. exact (IH Hs).
Qed.

Lemma strip_blank s : blank s = true -> strip s = EmptyString.
Proof. intro H. unfold strip. rewrite (lstrip_blank s H). reflexivity. Qed.

Lemma split_ws_blank s : blank s = true -> split_ws s = [].
Proof.
  induction s as [| c s IH]; [reflexivity |].
  cbn [blank split_ws]. intros [Hc Hs]%andb_prop. rewrite Hc. exact (IH Hs).
Qed.

Lemma rstrip_idempotent s : rstrip (rstrip s) = rstrip s.
Proof.
  induction s as [| c s IH]; [reflexivity |].
  rewrite rstrip_cons.
  destruct (is_empty (rstrip s) && is_space c) eqn:E; [reflexivity |].
  rewrite rstrip_cons, IH, E. reflexivity.
Qed.

(** A text that does not open with whitespace still does not after its
    right end is trimmed. *)
Lemma lstrip_rstrip_fixed s : lstrip s = s -> lstrip (rstrip s) = rstrip s.
Proof.
  destruct s as [| c s]; [reflexivity |].
  cbn [lstrip]. destruct (is_space c) eqn:Hc.
  - intro H. exfalso.
    assert (Hlen : (String.length (lstrip s) <= String.length s)%nat).
    { clear. induction s as [| d s IH]; cbn; [lia |].
      destruct (is_space d); cbn; lia. }
    rewrite H in Hlen. cbn in Hlen. lia.
  - intros _. rewrite rstrip_cons, Hc, andb_false_r. cbn [lstrip].
    rewrite Hc. reflexivity.
Qed.

Lemma lstrip_idempotent s : lstrip (lstrip s) = lstrip s.
Proof.
  induction s as [| c s IH]; [reflexivity |].
  cbn [lstrip]. destruct (is_space c) eqn:Hc; [exact IH |].
  cbn [lstrip]. rewrite Hc. reflexivity.
Qed.

Lemma strip_idempotent s : strip (strip s) = strip s.
Proof.
  unfold strip.
  rewrite (lstrip_rstrip_fixed (lstrip s) (lstrip_idempotent s)).
  apply rstrip_idempotent.
Qed.

Lemma detect_intent_strip message :
  detect_intent (strip message) = detect_intent message.
Proof. unfold detect_intent. rewrite strip_idempotent. reflexivity. Qed.

End Trimming.

(** A message of whitespace only (or empty) is classified [unknown] and
    has trimmed length zero; without an attachment [route] proposes the
    standard tier for it, and whatever the intent, tier or attachment, the
    provider answers it with the fixed sentence asking for a task. *)
Theorem blank_message_handling :
  forall message,
    blank message = true ->
    detect_intent message = INTENT_UNKNOWN
    /\ PyStr.len (PyStr.strip message) = 0%Z
    /\ candidate_tier message false = TIER_STANDARD
    /\ forall tier ic intent force_stable,
         _provider_generate false
           (mkProviderCall tier message ic intent force_stable)
         = Some EMPTY_MESSAGE_TEXT.
Proof.
  intros message H.
  pose proof (strip_blank message H) as Hs.
  assert (Hi : detect_intent message = INTENT_UNKNOWN).
  { unfold detect_intent. rewrite Hs. reflexivity. }
  split; [exact Hi |].
  split; [rewrite Hs; reflexivity |].
  split.
  - unfold candidate_tier. rewrite detect_intent_strip, Hi, Hs. reflexivity.
  - intros tier ic intent force_stable. unfold _provider_generate.
    cbn [call_force_stable call_message]. rewrite andb_false_r.
    rewrite (split_ws_blank message H). reflexivity.
Qed.

Lemma blank_message_handling_witness :
  let message := String (ascii_of_nat 9) (String " " (String (ascii_of_nat 10) EmptyString)) in
  blank message = true
  /\ detect_intent message = INTENT_UNKNOWN
  /\ PyStr.len (PyStr.strip message) = 0%Z
  /\ candidate_tier message false = TIER_STANDARD
  /\ forall tier ic intent force_stable,
       _provider_generate false
         (mkProviderCall tier message ic intent force_stable)
       = Some EMPTY_MESSAGE_TEXT.
Proof.
  intro message. split; [reflexivity |].
  apply (blank_message_handling message). reflexivity.
Defined.

(** The synthetic decision of [failsafe_decision] agrees with the decision
    [route] makes for the same message without attachment on the intent
    and on the trimmed length, its tier is standard and it is never marked
    downgraded, whatever the state of the guard, which it does not touch;
    with an attachment the routed intent is [image_analysis] while the
    synthetic one stays the text's own. *)
Theorem failsafe_decision_agrees_with_route :
  forall self message why clk,
    let f := failsafe_decision message why in
    let d := fst (route self message false clk) in
    let di := fst (route self message true clk) in
    intent f = intent d
    /\ message_length f = message_length d
    /\ model_tier f = TIER_STANDARD /\ downgraded f = false
    /\ reason f = Some why
    /\ intent di = INTENT_IMAGE_ANALYSIS
    /\ intent f = detect_intent message.
Proof.
  intros self message why clk f d di.
  unfold d, di. rewrite !route_unfold. cbn zeta.
  destruct (locked_section self (candidate_tier message false) (now clk)).
  destruct (locked_section self (candidate_tier message true) (now clk)).
  cbn. rewrite detect_intent_strip. repeat split.
Qed.

(** ** The search finds whole-word occurrences, and nothing else *)

Section SearchSound.

Import PyStr Re.

Lemma match_lit_sound kw : forall last s,
  match_lit kw last s = true ->
  exists k post,
    s = k ++ post /\ eq_ci kw k = true
    /\ boundary (last_char_from last k) (head post) = true.
Proof.
  induction kw as [| a kw IH]; intros last s H.
  - exists EmptyString, s. repeat split. exact H.
  - destruct s as [| c s]; [discriminate |].
    cbn in H. apply andb_prop in H. destruct H as [Hac H].
    destruct (IH (Some c) s H) as (k & post & -> & Heq & Hb).
    exists (String c k), post.
    split; [reflexivity |].
    split; [cbn; rewrite Hac; exact Heq | exact Hb].
Qed.

Lemma last_char_spelled kw : forall k p q,
  eq_ci kw k = true -> kw <> EmptyString ->
  is_word_opt (last_char_from p k) = is_word_opt (last_char_from q kw).
Proof.
  induction kw as [| a kw IH]; intros k p q Heq Hne; [congruence |].
  destruct k as [| c k]; [discriminate |].
  cbn in Heq. apply andb_prop in Heq. destruct Heq as [Hac Heq].
  cbn [last_char_from].
  destruct kw as [| b kw].
  - destruct k; [| discriminate]. cbn. apply eqb_ci_is_word. exact Hac.
  - apply IH; [exact Heq | discriminate].
Qed.

Lemma search_from_sound p :
  forallb word_edged p = true ->
  forall s prev,
    search_from p prev s = true ->
    exists pre k post kw,
      s = pre ++ k ++ post
      /\ In kw p /\ eq_ci kw k = true
      /\ is_word_opt (last_char_from prev pre) = false
      /\ is_word_opt (head post) = false.
Proof.
  intros Hedges.
  assert (Hat : forall s prev, match_at p prev s = true ->
            exists k post kw,
              s = k ++ post /\ In kw p /\ eq_ci kw k = true
              /\ is_word_opt prev = false /\ is_word_opt (head post) = false).
  { intros s prev H. unfold match_at in H. apply andb_prop in H.
    destruct H as [Hb Hex]. apply existsb_exists in Hex.
    destruct Hex as (kw & Hin & Hm).
    destruct (match_lit_sound kw prev s Hm) as (k & post & -> & Heq & Hend).
    rewrite forallb_forall in Hedges. specialize (Hedges kw Hin).
    unfold word_edged in Hedges. apply andb_prop in Hedges.
    destruct Hedges as [Hhead Hlast].
    assert (Hne : kw <> EmptyString) by (destruct kw; discriminate).
    exists k, post, kw. repeat split; try assumption.
    - unfold boundary in Hb.
      rewrite (head_occurrence kw k post Heq Hhead) in Hb.
      destruct (is_word_opt prev); [discriminate | reflexivity].
    - unfold boundary in Hend.
      rewrite (last_char_spelled kw k prev None Heq Hne) in Hend.
      unfold last_char in Hlast. rewrite Hlast in Hend.
      destruct (is_word_opt (head post)); [discriminate | reflexivity]. }
  induction s as [| c s IH]; intros prev H.
  - cbn [search_from] in H. rewrite orb_false_r in H.
    destruct (Hat _ _ H) as (k & post & kw & -> & Hin & Heq & Hp & Hpost).
    exists EmptyString, k, post, kw. repeat split; assumption.
  - rewrite search_from_cons in H. apply orb_prop in H. destruct H as [H | H].
    + destruct (Hat _ _ H) as (k & post & kw & E & Hin & Heq & Hp & Hpost).
      exists EmptyString, k, post, kw. repeat split; assumption.
    + destruct (IH (Some c) H) as (pre & k & post & kw & -> & Hin & Heq & Hp & Hpost).
      exists (String c pre), k, post, kw. repeat split; assumption.
Qed.

Lemma search_spec p message :
  forallb word_edged p = true ->
  (search p message = true <-> contains_keyword p message).
Proof.
  intros Hedges. split.
  - intro H. unfold search in H.
    destruct (search_from_sound p Hedges message None H)
      as (pre & k & post & kw & E & Hin & Heq & Hp & Hpost).
    exists pre, k, post, kw. repeat split; assumption.
  - apply search_complete. exact Hedges.
Qed.

End SearchSound.

(** For a pattern whose keywords begin and end with word characters (all
    six of the classifier do), the search succeeds exactly on the messages
    that contain one of the keywords as a whole word, in any letter case. *)
Theorem search_iff_contains_keyword :
  forall (p : Re.pattern) (message : string),
    forallb word_edged p = true ->
    (Re.search p message = true <-> contains_keyword p message).
Proof.
  intros p message Hedges. apply search_spec. exact Hedges.
Qed.

Lemma search_iff_contains_keyword_witness :
  forallb word_edged GREETING_PATTERN = true
  /\ forallb word_edged KNOWLEDGE_PATTERN = true
  /\ forallb word_edged CODING_PATTERN = true
  /\ forallb word_edged DEBUG_PATTERN = true
  /\ forallb word_edged IMAGE_PATTERN = true
  /\ forallb word_edged EMOTIONAL_PATTERN = true
  /\ (Re.search GREETING_PATTERN "well, Good Morning!" = true
      <-> contains_keyword GREETING_PATTERN "well, Good Morning!").
Proof.
  repeat (split; [reflexivity |]).
  apply (search_iff_contains_keyword GREETING_PATTERN "well, Good Morning!").
  reflexivity.
Defined.

Lemma search_false_iff p message :
  forallb word_edged p = true ->
  (Re.search p (PyStr.strip message) = false <-> ~ contains_keyword p message).
Proof.
  intro Hedges. rewrite search_strip.
  rewrite <- (search_spec p message Hedges).
  destruct (Re.search p message); split; intro H; congruence.
Qed.

(** The keyword tests are tried in a fixed order and the first whole-word
    occurrence decides: an image keyword gives [image_analysis]; failing
    that, a debugging keyword gives [debugging]; failing both, a coding
    keyword gives [coding_task]; failing all three, an emotional keyword
    gives [emotional_support]. *)
Theorem keyword_classes_first_match :
  forall message,
    (contains_keyword IMAGE_PATTERN message ->
     detect_intent message = INTENT_IMAGE_ANALYSIS)
    /\ (~ contains_keyword IMAGE_PATTERN message ->
        contains_keyword DEBUG_PATTERN message ->
        detect_intent message = INTENT_DEBUGGING)
    /\ (~ contains_keyword IMAGE_PATTERN message ->
        ~ contains_keyword DEBUG_PATTERN message ->
        contains_keyword CODING_PATTERN message ->
        detect_intent message = INTENT_CODING_TASK)
    /\ (~ contains_keyword IMAGE_PATTERN message ->
        ~ contains_keyword DEBUG_PATTERN message ->
        ~ contains_keyword CODING_PATTERN message ->
        contains_keyword EMOTIONAL_PATTERN message ->
        detect_intent message = INTENT_EMOTIONAL_SUPPORT).
Proof.
  intros message.
  assert (Hfound : forall p, forallb word_edged p = true ->
            contains_keyword p message ->
            Re.search p (PyStr.strip message) = true
            /\ PyStr.is_empty (PyStr.strip message) = false).
  { intros p Hp Hc. apply (search_complete p message Hp) in Hc.
    rewrite <- search_strip in Hc. split; [exact Hc |].
    destruct (PyStr.strip message); [| reflexivity].
    destruct p; discriminate Hc. }
  split; [| split; [| split]].
  - intro H. apply detect_intent_image_search.
    apply search_complete; [reflexivity | exact H].
  - intros Hi Hd.
    apply (search_false_iff IMAGE_PATTERN message eq_refl) in Hi.
    destruct (Hfound DEBUG_PATTERN eq_refl Hd) as [Hs Hne].
    unfold detect_intent. rewrite Hne, Hi, Hs. reflexivity.
  - intros Hi Hd Hc.
    apply (search_false_iff IMAGE_PATTERN message eq_refl) in Hi.
    apply (search_false_iff DEBUG_PATTERN message eq_refl) in Hd.
    destruct (Hfound CODING_PATTERN eq_refl Hc) as [Hs Hne].
    unfold detect_intent. rewrite Hne, Hi, Hd, Hs. reflexivity.
  - intros Hi Hd Hc He.
    apply (search_false_iff IMAGE_PATTERN message eq_refl) in Hi.
    apply (search_false_iff DEBUG_PATTERN message eq_refl) in Hd.
    apply (search_false_iff CODING_PATTERN message eq_refl) in Hc.
    destruct (Hfound EMOTIONAL_PATTERN eq_refl He) as [Hs Hne].
    unfold detect_intent. rewrite Hne, Hi, Hd, Hc, Hs. reflexivity.
Qed.

Lemma keyword_classes_first_match_witness :
  let message := "why does my Python code crash?" in
  ~ contains_keyword IMAGE_PATTERN message
  /\ contains_keyword DEBUG_PATTERN message
  /\ contains_keyword CODING_PATTERN message
  /\ detect_intent message = INTENT_DEBUGGING.
Proof.
  intro message.
  assert (Hi : ~ contains_keyword IMAGE_PATTERN message).
  { apply (search_false_iff IMAGE_PATTERN message eq_refl). reflexivity. }
  assert (Hd : contains_keyword DEBUG_PATTERN message).
  { exists "why does my Python code ", "crash", "?", "crash".
    repeat split; try reflexivity. cbn. tauto. }
  assert (Hc : contains_keyword CODING_PATTERN message).
  { exists "why does my ", "Python", " code crash?", "python".
    repeat split; try reflexivity. cbn. tauto. }
  split; [exact Hi | split; [exact Hd | split; [exact Hc |]]].
  destruct (keyword_classes_first_match message) as (_ & Hdebug & _).
  exact (Hdebug Hi Hd).
Defined.

(** ** Moderation *)

Example soft_moderate_masks :
  soft_moderate "You are a Stupid idiot, not stupidity." true
  = mkModerationResult "You are a [...] [...], not stupidity."
      "You are a Stupid idiot, not stupidity." true.
Proof. vm_compute. reflexivity. Qed.

Example soft_moderate_passes :
  soft_moderate "You are a Stupid idiot." false
  = mkModerationResult "You are a Stupid idiot." "You are a Stupid idiot." false.
Proof. reflexivity. Qed.

Example is_aggressive_context_examples :
  is_aggressive_context "you IDIOT" = true
  /\ is_aggressive_context "you Idiot" = false
  /\ is_aggressive_context "you IDIOTS are stupid" = true
  /\ is_aggressive_context "shut up, loser" = true
  /\ is_aggressive_context "I hate this!!" = true
  /\ is_aggressive_context "I hate this!" = false
  /\ is_aggressive_context "KILL the process!!" = false.
Proof. vm_compute. repeat split. Qed.

(** ** Texts of single-spaced words *)

Section Spacing.

Import PyStr.

Lemma spacing_app s1 : forall b s2,
  spacing b (s1 ++ s2)
  = match spacing b s1 with
    | Some b' => spacing b' s2
    | None => None
    end.
Proof.
  induction s1 as [| c s1 IH]; intros b s2; [reflexivity |].
  cbn [append spacing]. destruct (is_space c).
  - destruct (Ascii.eqb c " " && negb b); [apply IH | reflexivity].
  - apply IH.
Qed.

Lemma spacing_word w : forall b,
  plain_word w = true -> spacing b w = Some false.
Proof.
  unfold plain_word.
  induction w as [| c w IH]; intros b H; [discriminate |].
  cbn in H. apply andb_prop in H. destruct H as [Hc Hw].
  apply negb_true_iff in Hc. cbn [spacing]. rewrite Hc.
  destruct w as [| d w]; [reflexivity |].
  apply IH. exact Hw.
Qed.

Lemma spacing_join ws : forall b,
  ws <> [] -> forallb plain_word ws = true ->
  spacing b (join " " ws) = Some false.
Proof.
  induction ws as [| w ws IH]; intros b Hne Hall; [congruence |].
  cbn [forallb] in Hall. apply andb_prop in Hall. destruct Hall as [Hw Hws].
  destruct ws as [| w2 ws].
  - cbn [join]. apply spacing_word. exact Hw.
  - change (join " " (w :: w2 :: ws)) with (w ++ " " ++ join " " (w2 :: ws)).
    rewrite spacing_app, (spacing_word w b Hw).
    change (" " ++ join " " (w2 :: ws)) with (String " " (join " " (w2 :: ws))).
    cbn [spacing]. rewrite space_is_space. cbn.
    apply IH; [discriminate | exact Hws].
Qed.

Lemma split_ws_plain s : forallb plain_word (split_ws s) = true.
Proof.
  induction s as [| c s IH]; [reflexivity |].
  cbn [split_ws]. destruct (is_space c) eqn:Hc; [exact IH |].
  destruct s as [| d s]; [cbn; rewrite Hc; reflexivity |].
  destruct (is_space d) eqn:Hd.
  - cbn [forallb]. rewrite IH, andb_true_r. cbn. rewrite Hc. reflexivity.
  - destruct (split_ws (String d s)) as [| w ws]; [cbn; rewrite Hc; reflexivity |].
    cbn [forallb] in *. apply andb_prop in IH. destruct IH as [Hw Hws].
    rewrite Hws, andb_true_r. unfold plain_word in *. cbn. rewrite Hc. cbn.
    apply andb_prop in Hw. tauto.
Qed.

(** A text that reads through and ends on a non-whitespace character has
    nothing to trim on the right. *)
Lemma rstrip_fixed s : forall b, spacing b s = Some false -> rstrip s = s.
Proof.
  induction s as [| c s IH]; intros b H; [reflexivity |].
  rewrite rstrip_cons. cbn [spacing] in H.
  destruct (is_space c) eqn:Hc.
  - destruct (Ascii.eqb c " " && negb b); [| discriminate].
    rewrite (IH true H). destruct s; [discriminate H | reflexivity].
  - rewrite (IH false H), andb_false_r. reflexivity.
Qed.

Lemma strip_single_spaced s : single_spaced s = true -> strip s = s.
Proof.
  unfold single_spaced. intro H.
  destruct (spacing true s) as [[] |] eqn:E; try discriminate.
  unfold strip.
  assert (Hl : lstrip s = s).
  { destruct s as [| c s]; [reflexivity |].
    cbn [spacing] in E. cbn [lstrip].
    destruct (is_space c); [| reflexivity].
    rewrite andb_false_r in E. discriminate. }
  rewrite Hl. apply (rstrip_fixed s true E).
Qed.

Lemma spacing_take n : forall s b r,
  spacing b s = Some r -> exists r', spacing b (take n s) = Some r'.
Proof.
  induction n as [| n IH]; intros s b r H; [exists b; reflexivity |].
  destruct s as [| c s]; [exists b; reflexivity |].
  cbn [take spacing] in *. destruct (is_space c).
  - destruct (Ascii.eqb c " " && negb b); [| discriminate]. exact (IH _ _ _ H).
  - exact (IH _ _ _ H).
Qed.

Lemma spacing_opens_word s r :
  spacing true s = Some r -> s <> EmptyString -> spacing false s = Some r.
Proof.
  destruct s as [| c s]; [congruence |].
  cbn [spacing]. destruct (is_space c); [| tauto].
  rewrite andb_false_r. discriminate.
Qed.

(** On such a text, cutting at single spaces and cutting at whitespace
    give the same words. *)
Lemma split_on_spacing s :
  spacing false s = Some false ->
  split_on " " s
  = match s with
    | EmptyString => [EmptyString]
    | String c _ =>
        if Ascii.eqb c " " then EmptyString :: split_ws s else split_ws s
    end.
Proof.
  induction s as [| c s IH]; intro H; [reflexivity |].
  cbn [spacing] in H. cbn [split_on].
  destruct (is_space c) eqn:Hc.
  - destruct (Ascii.eqb_spec c " ") as [-> | Hne]; [| discriminate H].
    cbn [negb andb] in H.
    destruct s as [| d s]; [discriminate H |].
    assert (Hd : is_space d = false).
    { cbn [spacing] in H. destruct (is_space d); [| reflexivity].
      rewrite andb_false_r in H. discriminate. }
    assert (Hf : spacing false (String d s) = Some false).
    { cbn [spacing] in *. rewrite Hd in *. exact H. }
    rewrite (IH Hf), (not_space_not_blank d Hd).
    cbn [split_ws]. rewrite space_is_space. reflexivity.
  - rewrite (not_space_not_blank c Hc). rewrite (IH H).
    destruct s as [| d s]; [cbn; rewrite Hc; reflexivity |].
    cbn [split_ws]. rewrite Hc.
    destruct (Ascii.eqb_spec d " ") as [-> | Hne].
    + rewrite space_is_space. reflexivity.
    + assert (Hd : is_space d = false).
      { cbn [spacing] in H. destruct (is_space d) eqn:Hd; [| reflexivity].
        destruct (Ascii.eqb_spec d " "); [congruence | discriminate H]. }
      rewrite Hd. reflexivity.
Qed.

Lemma split_single_spaced_text s :
  single_spaced s = true -> split_on " " s = split_ws s.
Proof.
  unfold single_spaced. intro H.
  destruct (spacing true s) as [[] |] eqn:E; try discriminate.
  destruct s as [| c s]; [discriminate E |].
  assert (Hc : is_space c = false).
  { cbn [spacing] in E. destruct (is_space c); [| reflexivity].
    rewrite andb_false_r in E. discriminate. }
  rewrite split_on_spacing
    by (apply spacing_opens_word; [exact E | discriminate]).
  rewrite (not_space_not_blank c Hc). reflexivity.
Qed.

End Spacing.

Section GeneratedTexts.

Import PyStr.

Lemma some_eq {A : Type} (x y : A) : Some x = Some y -> x = y.
Proof. congruence. Qed.

Lemma body_of_spacing intent ic : spacing true (body_of intent ic) = Some true.
Proof.
  unfold body_of.
  repeat match goal with
         | |- context [if ?b then _ else _] => destruct b
         end; reflexivity.
Qed.

Lemma take_nonempty n s :
  s <> EmptyString -> take (S n) s <> EmptyString.
Proof. destruct s; [congruence | discriminate]. Qed.

(** The whitespace-normalized message, when it is not blank. *)
Lemma normalized_single_spaced message :
  let normalized := strip (join " " (split_ws message)) in
  is_empty normalized = false ->
  normalized = join " " (split_ws message)
  /\ spacing true normalized = Some false.
Proof.
  cbn zeta.
  destruct (split_ws message) as [| w ws] eqn:E; [discriminate |].
  assert (Hs : spacing true (join " " (w :: ws)) = Some false).
  { apply spacing_join; [discriminate |].
    rewrite <- E. apply split_ws_plain. }
  assert (Hfix : strip (join " " (w :: ws)) = join " " (w :: ws)).
  { apply strip_single_spaced. unfold single_spaced. rewrite Hs. reflexivity. }
  rewrite Hfix. intros _. split; [reflexivity | exact Hs].
Qed.

(** Every text the stand-in provider returns is a sequence of words
    separated by single spaces. *)
Lemma provider_text_single_spaced draw c t :
  _provider_generate draw c = Some t -> single_spaced t = true.
Proof.
  unfold _provider_generate.
  destruct (negb (call_force_stable c) && draw); [discriminate |].
  pose proof (normalized_single_spaced (call_message c)) as Hn. cbn zeta in Hn.
  set (normalized := strip (join " " (split_ws (call_message c)))) in *.
  destruct (is_empty normalized) eqn:He; cbn [negb]; intros H%some_eq;
    subst t; [reflexivity |].
  destruct (Hn eq_refl) as [_ Hs].
  assert (Hne : normalized <> EmptyString)
    by (destruct normalized; [discriminate He | discriminate]).
  destruct (spacing_take 180 normalized true false Hs) as [r Hr].
  apply spacing_opens_word in Hr; [| apply take_nonempty; exact Hne].
  unfold single_spaced.
  change ("Ghost is active. " ++ body_of (call_intent c) (call_image_context c)
          ++ "Focus: " ++ dquote ++ take 180 normalized ++ dquote ++ ".")
    with ("Ghost is active. "
          ++ (body_of (call_intent c) (call_image_context c)
              ++ (("Focus: " ++ dquote)
                  ++ (take 180 normalized ++ (dquote ++ "."))))).
  rewrite spacing_app.
  change (spacing true "Ghost is active. ") with (Some true). cbv beta iota.
  rewrite spacing_app, body_of_spacing. cbv beta iota.
  rewrite spacing_app.
  change (spacing true ("Focus: " ++ dquote)) with (Some false). cbv beta iota.
  rewrite spacing_app, Hr. cbv beta iota.
  destruct r; reflexivity.
Qed.

Lemma is_space_lower c : is_space (lower c) = is_space c.
Proof. destruct c as [[] [] [] [] [] [] [] []]; reflexivity. Qed.

Lemma eqb_ci_is_space a c : eqb_ci a c = true -> is_space c = is_space a.
Proof.
  unfold eqb_ci. intro H. apply Ascii.eqb_eq in H.
  rewrite <- (is_space_lower c), <- H. apply is_space_lower.
Qed.

(** What a keyword covers in the text is as free of whitespace as the
    keyword, and as long. *)
Lemma strip_prefix_ci_covers kw : forall last s last' rest,
  strip_prefix_ci kw last s = Some (last', rest) ->
  exists k,
    s = k ++ rest /\ no_space k = no_space kw
    /\ String.length k = String.length kw.
Proof.
  induction kw as [| a kw IH]; intros last s last' rest H.
  - cbn in H. injection H as <- <-. exists EmptyString. repeat split.
  - destruct s as [| c s]; [discriminate |]. cbn in H.
    destruct (eqb_ci a c) eqn:Hac; [| discriminate].
    destruct (IH _ _ _ _ H) as (k & -> & Hk & Hlen).
    exists (String c k). split; [reflexivity |].
    cbn. rewrite Hk, Hlen, (eqb_ci_is_space a c Hac). split; reflexivity.
Qed.

Lemma first_match_covers p : forall prev s kw last rest,
  forallb plain_word p = true ->
  first_match p prev s = Some (kw, last, rest) ->
  exists k,
    s = k ++ rest /\ plain_word k = true
    /\ String.length k = String.length kw.
Proof.
  induction p as [| w p IH]; intros prev s kw last rest Hp H; [discriminate |].
  cbn [forallb] in Hp. apply andb_prop in Hp. destruct Hp as [Hw Hp].
  cbn [first_match] in H.
  destruct (Re.match_lit w prev s); [| exact (IH _ _ _ _ _ Hp H)].
  destruct (strip_prefix_ci w prev s) as [[last0 rest0] |] eqn:E;
    [| exact (IH _ _ _ _ _ Hp H)].
  injection H as <- <- <-.
  destruct (strip_prefix_ci_covers _ _ _ _ _ E) as (k & -> & Hk & Hlen).
  exists k. split; [reflexivity |]. split; [| exact Hlen].
  unfold plain_word in *. apply andb_prop in Hw. destruct Hw as [Hne Hns].
  rewrite Hk, Hns, andb_true_r.
  destruct k; [| reflexivity]. destruct w; [discriminate Hne | discriminate Hlen].
Qed.

(** Masking keeps the spacing of a text: a match holds no whitespace and
    neither does what replaces it. *)
Lemma sub_from_spacing p repl :
  forallb plain_word p = true -> plain_word repl = true ->
  forall fuel prev s b,
    spacing b (sub_from fuel p repl prev s) = spacing b s.
Proof.
  intros Hp Hrepl.
  induction fuel as [| fuel IH]; intros prev s b; [reflexivity |].
  cbn [sub_from].
  assert (Hcopy : spacing b
                    match s with
                    | EmptyString => EmptyString
                    | String c s' => String c (sub_from fuel p repl (Some c) s')
                    end = spacing b s).
  { destruct s as [| c s]; [reflexivity |].
    cbn [spacing]. destruct (is_space c).
    - destruct (Ascii.eqb c " " && negb b); [apply IH | reflexivity].
    - apply IH. }
  destruct (Re.boundary prev (head s)); [| exact Hcopy].
  destruct (first_match p prev s) as [[[kw last] rest] |] eqn:E; [| exact Hcopy].
  destruct kw as [| a kw]; [exact Hcopy |].
  destruct (first_match_covers p _ _ _ _ _ Hp E) as (k & -> & Hk & _).
  rewrite !spacing_app, (spacing_word repl b Hrepl), (spacing_word k b Hk).
  apply IH.
Qed.

Lemma soft_moderate_single_spaced t flag :
  single_spaced t = true ->
  single_spaced (display_text (soft_moderate t flag)) = true.
Proof.
  intro H. unfold soft_moderate.
  destruct (is_empty t || negb flag); [exact H |].
  cbn [display_text]. unfold single_spaced, re_sub in *.
  rewrite sub_from_spacing; [exact H | reflexivity | reflexivity].
Qed.

End GeneratedTexts.

(** ** The streaming endpoint, end to end *)

Section Endpoint.

Lemma await_text_single_spaced message ic AMO1 route0 clk draw outcome timeout :
  single_spaced
    (snd (fst (fst (await_response message ic AMO1 route0 clk draw outcome
                      timeout)))) = true.
Proof.
  destruct outcome; cbn [await_response fst snd]; [| reflexivity | reflexivity].
  destruct (generate_text_from_provider draw message ic AMO1 (Some route0) clk)
    as (Ht & _).
  exact (provider_text_single_spaced _ _ _ Ht).
Qed.

Lemma event_stream_unfold message ic AMO clk draw outcome timeout :
  let routed := route AMO message (truthy ic) (gen_route_clock clk) in
  let awaited := await_response message ic (snd routed) (fst routed) clk draw
                   outcome timeout in
  let moderated := soft_moderate (snd (fst (fst awaited)))
                     (is_aggressive_context message) in
  let run := event_stream message ic AMO clk draw outcome timeout in
  run_frames run = yielded_frames (fst routed) ic moderated
  /\ run_guard run = snd routed
  /\ run_moderated run = moderated
  /\ run_saved run = original_text moderated
  /\ log_intent (run_log run) = intent (fst (fst (fst awaited)))
  /\ log_reason (run_log run) = reason (fst (fst (fst awaited)))
  /\ log_downgraded (run_log run) = downgraded (fst (fst (fst awaited)))
  /\ log_fallback_used (run_log run) = snd awaited.
Proof.
  cbn zeta. unfold event_stream.
  destruct (route AMO message (truthy ic) (gen_route_clock clk))
    as [route0 AMO1]. cbn [fst snd].
  destruct (await_response _ _ _ _ _ _ _ _) as [[[route1 ai_text] response] fallback].
  cbn. repeat split.
Qed.

Lemma chat_stream_unfold payload_message ic AMO clk draw outcome timeout :
  let message := PyStr.strip payload_message in
  let routed := route AMO message (truthy ic) (gen_route_clock clk) in
  let awaited := await_response message ic (snd routed) (fst routed) clk draw
                   outcome timeout in
  let moderated := soft_moderate (snd (fst (fst awaited)))
                     (is_aggressive_context message) in
  let run := chat_stream payload_message ic AMO clk draw outcome timeout in
  run_frames run = yielded_frames (fst routed) ic moderated
  /\ run_guard run = snd routed
  /\ run_moderated run = moderated
  /\ run_saved run = original_text moderated
  /\ log_intent (run_log run) = intent (fst (fst (fst awaited)))
  /\ log_reason (run_log run) = reason (fst (fst (fst awaited)))
  /\ log_downgraded (run_log run) = downgraded (fst (fst (fst awaited)))
  /\ log_fallback_used (run_log run) = snd awaited.
Proof.
  cbn zeta. unfold chat_stream.
  apply (event_stream_unfold (PyStr.strip payload_message)).
Qed.

(** The text a run ends up displaying is made of words separated by
    single spaces: the provider's text and the fallback literals are, and
    masking keeps them so. *)
Lemma event_stream_display_single_spaced message ic AMO clk draw outcome timeout :
  single_spaced
    (display_text (run_moderated
                     (event_stream message ic AMO clk draw outcome timeout)))
  = true.
Proof.
  destruct (event_stream_unfold message ic AMO clk draw outcome timeout)
    as (_ & _ & Hm & _).
  rewrite Hm. apply soft_moderate_single_spaced. apply await_text_single_spaced.
Qed.

Lemma filter_chunks_meta (ws : list string) :
  filter is_meta (map (fun w => Chunk (w ++ " ")) ws) = [].
Proof. induction ws as [| w ws IH]; [reflexivity | exact IH]. Qed.

Lemma filter_chunks_done (ws : list string) :
  filter is_done (map (fun w => Chunk (w ++ " ")) ws) = [].
Proof. induction ws as [| w ws IH]; [reflexivity | exact IH]. Qed.

(** On a text of single-spaced words the frames are the meta frame, one
    chunk per whitespace-delimited word, and the done frame. *)
Lemma yielded_frames_words route0 ic m :
  single_spaced (display_text m) = true ->
  yielded_frames route0 ic m
  = Meta (String.eqb (intent route0) INTENT_DEBUGGING
          || String.eqb (intent route0) INTENT_CODING_TASK) (truthy ic)
    :: map (fun w => Chunk (w ++ " ")) (PyStr.split_ws (display_text m))
    ++ [Done (moderated m) (display_text m)
          (if moderated m then Some (original_text m) else None)].
Proof.
  intro Hs. unfold yielded_frames, chunk_frames.
  rewrite (split_single_spaced_text _ Hs). reflexivity.
Qed.

End Endpoint.

(** C6: whatever the message, the state of the guard, the fault draw and
    the way the wait ends, the text [event_stream] finalizes is made of
    words separated by single spaces, and the stream is exactly one meta
    frame first, then one chunk frame per whitespace-delimited word of
    that text, each word followed by a space, in source order, then
    exactly one done frame, which is the last frame. The same holds of the
    three yield sites for any single-spaced text; for the text [a b c] the
    frames are exactly meta, chunk [a ], chunk [b ], chunk [c ], done. *)
Theorem event_stream_meta_words_done :
  (forall message ic AMO clk draw outcome timeout,
      let run := event_stream message ic AMO clk draw outcome timeout in
      let display := display_text (run_moderated run) in
      single_spaced display = true
      /\ exists meta done,
           is_meta meta = true /\ is_done done = true
           /\ run_frames run
              = meta :: map (fun w => Chunk (w ++ " ")) (PyStr.split_ws display)
                ++ [done]
           /\ List.length (filter is_meta (run_frames run)) = 1%nat
           /\ List.length (filter is_done (run_frames run)) = 1%nat
           /\ last (run_frames run) meta = done)
  /\ (forall route0 ic m,
         single_spaced (display_text m) = true ->
         exists meta done,
           is_meta meta = true /\ is_done done = true
           /\ yielded_frames route0 ic m
              = meta :: map (fun w => Chunk (w ++ " "))
                          (PyStr.split_ws (display_text m))
                ++ [done])
  /\ (forall route0 ic original flag,
         yielded_frames route0 ic (mkModerationResult "a b c" original flag)
         = [Meta (String.eqb (intent route0) INTENT_DEBUGGING
                  || String.eqb (intent route0) INTENT_CODING_TASK) (truthy ic);
            Chunk "a "; Chunk "b "; Chunk "c ";
            Done flag "a b c" (if flag then Some original else None)]).
Proof.
  split; [| split].
  - intros message ic AMO clk draw outcome timeout run display.
    pose proof (event_stream_display_single_spaced message ic AMO clk draw
                  outcome timeout) as Hs.
    fold run in Hs. fold display in Hs.
    destruct (event_stream_unfold message ic AMO clk draw outcome timeout)
      as (Hf & _ & Hm & _).
    fold run in Hf, Hm.
    split; [exact Hs |].
    assert (Hframes := Hf).
    rewrite yielded_frames_words in Hframes by (rewrite <- Hm; exact Hs).
    rewrite <- Hm in Hframes. fold display in Hframes.
    eexists _, _.
    split; [| split; [| split; [exact Hframes |]]]; [reflexivity | reflexivity |].
    rewrite Hframes.
    split; [| split].
    + cbn [filter is_meta]. rewrite filter_app, filter_chunks_meta. reflexivity.
    + cbn [filter is_done]. rewrite filter_app, filter_chunks_done. reflexivity.
    + rewrite app_comm_cons. apply last_last.
  - intros route0 ic m Hs. eexists _, _.
    split; [| split; [| apply yielded_frames_words; exact Hs]]; reflexivity.
  - intros route0 ic original flag. reflexivity.
Qed.

(** ** Masking *)

Section Masking.

Import PyStr Re.

(** The scan of [sub_from] never runs out of steps: any two budgets above
    the length of the text give the same result. *)
Lemma sub_from_enough_fuel p repl :
  forallb plain_word p = true ->
  forall f1 f2 prev s,
    (String.length s < f1)%nat -> (String.length s < f2)%nat ->
    sub_from f1 p repl prev s = sub_from f2 p repl prev s.
Proof.
  intros Hp.
  induction f1 as [| f1 IH]; intros f2 prev s H1 H2; [lia |].
  destruct f2 as [| f2]; [lia |].
  cbn [sub_from].
  assert (Hcopy : match s with
                  | EmptyString => EmptyString
                  | String c s' => String c (sub_from f1 p repl (Some c) s')
                  end
                  = match s with
                    | EmptyString => EmptyString
                    | String c s' => String c (sub_from f2 p repl (Some c) s')
                    end).
  { destruct s as [| c s]; [reflexivity |]. cbn in H1, H2.
    f_equal. apply IH; lia. }
  destruct (boundary prev (head s)); [| exact Hcopy].
  destruct (first_match p prev s) as [[[kw last] rest] |] eqn:E; [| exact Hcopy].
  destruct kw as [| a kw]; [exact Hcopy |].
  destruct (first_match_covers p _ _ _ _ _ Hp E) as (k & -> & _ & Hlen).
  rewrite str_length_app, Hlen in H1, H2. cbn in H1, H2.
  f_equal. apply IH; lia.
Qed.

Lemma first_match_none p prev s :
  existsb (fun w => match_lit w prev s) p = false ->
  first_match p prev s = None.
Proof.
  induction p as [| w p IH]; [reflexivity |].
  cbn. intros [Hw Hp]%orb_false_elim. rewrite Hw. exact (IH Hp).
Qed.

(** Where the pattern is not found, substitution copies the text. *)
Lemma sub_from_no_match p repl : forall fuel prev s,
  search_from p prev s = false -> sub_from fuel p repl prev s = s.
Proof.
  induction fuel as [| fuel IH]; intros prev s H; [reflexivity |].
  cbn [sub_from].
  assert (Hat : match_at p prev s = false).
  { destruct s; cbn [search_from] in H; apply orb_false_elim in H; tauto. }
  assert (Hcopy : match s with
                  | EmptyString => EmptyString
                  | String c s' => String c (sub_from fuel p repl (Some c) s')
                  end = s).
  { destruct s as [| c s]; [reflexivity |].
    rewrite search_from_cons in H. apply orb_false_elim in H.
    destruct H as [_ H]. rewrite (IH _ _ H). reflexivity. }
  unfold match_at in Hat.
  destruct (boundary prev (head s)); [| exact Hcopy].
  cbn [andb] in Hat. rewrite (first_match_none _ _ _ Hat). exact Hcopy.
Qed.

Lemma aggressive_needs_offensive message :
  is_aggressive_context message = true -> search TERM_PATTERN message = true.
Proof.
  unfold is_aggressive_context.
  destruct (is_empty message); [discriminate |].
  intros [H _]%andb_prop. exact H.
Qed.

End Masking.

(** [soft_moderate] keeps the input as [original_text]; [moderated] is
    true exactly when the displayed text differs from it; and a text is
    only ever altered when the context flag is set and the text contains
    an offensive term as a whole word: any other text comes back as it
    is, not moderated. *)
Theorem soft_moderate_coherent :
  forall text flag,
    let m := soft_moderate text flag in
    original_text m = text
    /\ (moderated m = true <-> display_text m <> text)
    /\ (moderated m = true ->
        flag = true /\ contains_keyword TERM_PATTERN text)
    /\ (~ contains_keyword TERM_PATTERN text ->
        m = mkModerationResult text text false).
Proof.
  intros text flag m.
  assert (Hclean : Re.search TERM_PATTERN text = false ->
                   re_sub TERM_PATTERN MASK text = text).
  { intro H. unfold re_sub. apply sub_from_no_match. exact H. }
  unfold m, soft_moderate.
  destruct (PyStr.is_empty text || negb flag) eqn:E.
  - cbn. repeat split; try discriminate; try congruence.
  - apply orb_false_elim in E. destruct E as [_ Hflag].
    apply negb_false_iff in Hflag. cbn [original_text display_text moderated].
    split; [reflexivity |].
    split; [| split].
    + rewrite negb_true_iff. split.
      * intros H Heq. rewrite Heq, String.eqb_refl in H. discriminate.
      * intro H. destruct (String.eqb_spec (re_sub TERM_PATTERN MASK text) text);
          [contradiction | reflexivity].
    + rewrite negb_true_iff. intro H. split; [exact Hflag |].
      apply (search_spec TERM_PATTERN text eq_refl).
      destruct (Re.search TERM_PATTERN text) eqn:Hs; [reflexivity |].
      rewrite (Hclean eq_refl), String.eqb_refl in H. discriminate.
    + intro Hno.
      assert (Hs : Re.search TERM_PATTERN text = false).
      { destruct (Re.search TERM_PATTERN text) eqn:Hs; [| reflexivity].
        exfalso. apply Hno. apply (search_spec TERM_PATTERN text eq_refl).
        exact Hs. }
      rewrite (Hclean Hs), String.eqb_refl. reflexivity.
Qed.

Section MaskedTextClean.

Import PyStr Re.

Variable p : pattern.
Variable repl : string.
Hypothesis Hp : forallb word_keyword p = true.
Hypothesis Hrepl : no_word repl = true.

Lemma word_keyword_head kw :
  word_keyword kw = true ->
  exists a kw', kw = String a kw' /\ is_word a = true /\ all_word kw' = true.
Proof.
  unfold word_keyword. destruct kw as [| a kw]; [discriminate |].
  cbn. intros [Ha Hk]%andb_prop. exists a, kw. repeat split; assumption.
Qed.

Lemma match_lit_nonword_head kw prev d s :
  word_keyword kw = true -> is_word d = false ->
  match_lit kw prev (String d s) = false.
Proof.
  intros (a & kw' & -> & Ha & _)%word_keyword_head Hd. cbn.
  destruct (eqb_ci a d) eqn:E; [| reflexivity].
  rewrite (eqb_ci_is_word a d E) in Hd. congruence.
Qed.

Lemma match_lit_empty_text_kw kw prev :
  word_keyword kw = true -> match_lit kw prev EmptyString = false.
Proof. intros (a & kw' & -> & _)%word_keyword_head. reflexivity. Qed.

Lemma existsb_nonword_head prev d s :
  is_word d = false ->
  existsb (fun w => match_lit w prev (String d s)) p = false.
Proof.
  intro Hd. revert Hp. induction p as [| w q IH]; [reflexivity |].
  cbn. intros [Hw Hq]%andb_prop.
  rewrite (match_lit_nonword_head w prev d s Hw Hd). exact (IH Hq).
Qed.

Lemma existsb_empty_text prev :
  existsb (fun w => match_lit w prev EmptyString) p = false.
Proof.
  revert Hp. induction p as [| w q IH]; [reflexivity |].
  cbn. intros [Hw Hq]%andb_prop.
  rewrite (match_lit_empty_text_kw w prev Hw). exact (IH Hq).
Qed.

(** Right after a word character no match can start, so the scan copies
    the next character. *)
Lemma sub_from_after_word fuel c s :
  is_word c = true ->
  sub_from (S fuel) p repl (Some c) s
  = match s with
    | EmptyString => EmptyString
    | String d s' => String d (sub_from fuel p repl (Some d) s')
    end.
Proof.
  intro Hc. cbn [sub_from].
  destruct s as [| d s].
  - rewrite (first_match_none p (Some c) EmptyString (existsb_empty_text _)).
    destruct (boundary _ _); reflexivity.
  - unfold boundary. cbn [head is_word_opt]. rewrite Hc.
    destruct (is_word d) eqn:Hd; cbn [xorb negb]; [reflexivity |].
    rewrite (first_match_none p (Some c) (String d s)
               (existsb_nonword_head _ d s Hd)).
    reflexivity.
Qed.

(** A keyword of word characters reads the same on the masked text as on
    the original, from wherever a word character precedes. *)
Lemma match_lit_on_masked kw :
  all_word kw = true ->
  forall fuel c s,
    is_word c = true ->
    match_lit kw (Some c) (sub_from fuel p repl (Some c) s)
    = match_lit kw (Some c) s.
Proof.
  induction kw as [| a kw IH]; intros Hk fuel c s Hc.
  - destruct fuel as [| fuel]; [reflexivity |].
    rewrite (sub_from_after_word fuel c s Hc). destruct s; reflexivity.
  - cbn in Hk. apply andb_prop in Hk. destruct Hk as [Ha Hk].
    destruct fuel as [| fuel]; [reflexivity |].
    rewrite (sub_from_after_word fuel c s Hc).
    destruct s as [| d s]; [reflexivity |].
    cbn [match_lit]. destruct (eqb_ci a d) eqn:E; [| reflexivity].
    cbn [andb]. apply IH; [exact Hk |].
    rewrite (eqb_ci_is_word a d E). exact Ha.
Qed.

Lemma existsb_on_masked fuel prev prev' c s :
  is_word c = true ->
  forall q, forallb word_keyword q = true ->
  existsb (fun w => match_lit w prev' (String c (sub_from fuel p repl (Some c) s))) q
  = existsb (fun w => match_lit w prev (String c s)) q.
Proof.
  intros Hc q. induction q as [| w q IH]; [reflexivity |].
  cbn [forallb existsb]. intros [Hw Hq]%andb_prop. rewrite (IH Hq). f_equal.
  destruct (word_keyword_head w Hw) as (a & kw' & -> & _ & Hk).
  cbn [match_lit]. rewrite (match_lit_on_masked kw' Hk fuel c s Hc). reflexivity.
Qed.

(** No match starts inside a run of non-word characters. *)
Lemma search_skip_nonword u : forall prev X,
  no_word u = true ->
  search_from p prev (u ++ X) = search_from p (last_char_from prev u) X.
Proof.
  induction u as [| d u IH]; intros prev X Hu; [reflexivity |].
  cbn in Hu. apply andb_prop in Hu. destruct Hu as [Hd Hu].
  apply negb_true_iff in Hd.
  change (String d u ++ X) with (String d (u ++ X)).
  rewrite search_from_cons. unfold match_at.
  rewrite (existsb_nonword_head prev d (u ++ X) Hd), andb_false_r.
  cbn [orb last_char_from]. apply IH. exact Hu.
Qed.

Lemma last_char_no_word u : forall prev,
  no_word u = true -> u <> EmptyString ->
  is_word_opt (last_char_from prev u) = false.
Proof.
  induction u as [| d u IH]; intros prev Hu Hne; [congruence |].
  cbn in Hu. apply andb_prop in Hu. destruct Hu as [Hd Hu].
  apply negb_true_iff in Hd. cbn [last_char_from].
  destruct u as [| e u]; [exact Hd |].
  apply IH; [exact Hu | discriminate].
Qed.

(** Where a keyword matched, the text goes on with a non-word character
    or ends. *)
Lemma match_end kw : forall lastp s last rest,
  match_lit kw lastp s = true ->
  strip_prefix_ci kw lastp s = Some (last, rest) ->
  boundary last (head rest) = true
  /\ (word_keyword kw = true -> is_word_opt last = true).
Proof.
  induction kw as [| a kw IH]; intros lastp s last rest Hm Hs.
  - cbn in Hs. injection Hs as <- <-. split; [exact Hm | discriminate].
  - destruct s as [| c s]; [discriminate |]. cbn in Hm, Hs.
    destruct (eqb_ci a c) eqn:E; [| discriminate]. cbn [andb] in Hm.
    destruct (IH _ _ _ _ Hm Hs) as [Hb Hw].
    split; [exact Hb |].
    unfold word_keyword. cbn. intros [Ha Hk]%andb_prop.
    destruct kw as [| b kw].
    + cbn in Hs. injection Hs as <- <-. cbn.
      rewrite (eqb_ci_is_word a c E). exact Ha.
    + apply Hw. exact Hk.
Qed.

Lemma strip_prefix_of_match kw : forall lastp s,
  match_lit kw lastp s = true -> strip_prefix_ci kw lastp s <> None.
Proof.
  induction kw as [| a kw IH]; intros lastp s H; [discriminate |].
  destruct s as [| c s]; [discriminate |]. cbn in *.
  destruct (eqb_ci a c); [apply IH; exact H | discriminate].
Qed.

Lemma first_match_sound q : forall prev s kw last rest,
  first_match q prev s = Some (kw, last, rest) ->
  In kw q /\ match_lit kw prev s = true
  /\ strip_prefix_ci kw prev s = Some (last, rest).
Proof.
  induction q as [| w q IH]; intros prev s kw last rest H; [discriminate |].
  cbn [first_match] in H.
  destruct (match_lit w prev s) eqn:Hm.
  - destruct (strip_prefix_ci w prev s) as [[l r] |] eqn:E.
    + injection H as <- <- <-. repeat split; [left; reflexivity | | ]; assumption.
    + exfalso. exact (strip_prefix_of_match _ _ _ Hm E).
  - destruct (IH _ _ _ _ _ H) as (Hin & H1 & H2).
    repeat split; [right; exact Hin | | ]; assumption.
Qed.

Lemma first_match_none_inv q : forall prev s,
  first_match q prev s = None ->
  existsb (fun w => match_lit w prev s) q = false.
Proof.
  induction q as [| w q IH]; intros prev s H; [reflexivity |].
  cbn [first_match] in H. cbn [existsb].
  destruct (match_lit w prev s) eqn:Hm.
  - destruct (strip_prefix_ci w prev s) as [[l r] |] eqn:E; [discriminate |].
    exfalso. exact (strip_prefix_of_match _ _ _ Hm E).
  - exact (IH _ _ H).
Qed.

(** On the text [sub_from] returns, the pattern is nowhere found: not
    inside what replaced a match, not across its ends, not in what was
    copied. The character before the masked text may differ from the one
    before the original, as long as it is of the same class or the text
    opens with a non-word character. *)
Lemma sub_from_clean :
  forall fuel prev prev' s,
    (String.length s < fuel)%nat ->
    is_word_opt prev' = is_word_opt prev \/ is_word_opt (head s) = false ->
    search_from p prev' (sub_from fuel p repl prev s) = false.
Proof.
  induction fuel as [| fuel IH]; intros prev prev' s Hlen HC; [lia |].
  cbn [sub_from].
  assert (Hcopy : boundary prev (head s) = false
                  \/ existsb (fun w => match_lit w prev s) p = false ->
                  search_from p prev'
                    match s with
                    | EmptyString => EmptyString
                    | String c s' => String c (sub_from fuel p repl (Some c) s')
                    end = false).
  { intro Hno. destruct s as [| c s].
    - cbn [search_from]. unfold match_at.
      rewrite (existsb_empty_text prev'), andb_false_r. reflexivity.
    - rewrite search_from_cons.
      rewrite (IH (Some c) (Some c) s) by (cbn in Hlen; lia || (left; reflexivity)).
      rewrite orb_false_r. unfold match_at.
      destruct (is_word c) eqn:Hc.
      + rewrite (existsb_on_masked fuel prev prev' c s Hc p Hp).
        destruct HC as [HC | HC]; [| cbn in HC; congruence].
        unfold boundary in *. cbn [head] in *. rewrite HC.
        destruct Hno as [Hno | Hno]; rewrite Hno; [reflexivity | apply andb_false_r].
      + rewrite (existsb_nonword_head prev' c _ Hc). apply andb_false_r. }
  destruct (boundary prev (head s)) eqn:Hb; [| apply Hcopy; left; reflexivity].
  destruct (first_match p prev s) as [[[kw last] rest] |] eqn:E;
    [| apply Hcopy; right; apply first_match_none_inv; exact E].
  destruct (first_match_sound p _ _ _ _ _ E) as (Hin & Hm & Hs).
  assert (Hkw : word_keyword kw = true).
  { pose proof Hp as Hall. rewrite forallb_forall in Hall. exact (Hall kw Hin). }
  destruct kw as [| a kw]; [discriminate Hkw |].
  destruct (match_end _ _ _ _ _ Hm Hs) as [Hend Hlast].
  specialize (Hlast Hkw).
  destruct (strip_prefix_ci_covers _ _ _ _ _ Hs) as (k & -> & _ & Hk).
  rewrite str_length_app, Hk in Hlen. cbn in Hlen.
  rewrite (search_skip_nonword repl _ _ Hrepl).
  apply IH; [lia |].
  right. unfold boundary in Hend. rewrite Hlast in Hend.
  destruct (is_word_opt (head rest)); [discriminate | reflexivity].
Qed.

End MaskedTextClean.


Section EndpointLog.

Lemma select_model_not_empty intent n :
  PyStr.is_empty (select_model intent n) = false.
Proof.
  unfold select_model.
  repeat match goal with
         | |- context [if ?b then _ else _] => destruct b
         end; reflexivity.
Qed.

Lemma route_tier_not_empty self message has_image clk :
  PyStr.is_empty (model_tier (fst (route self message has_image clk))) = false.
Proof.
  destruct (route_decision self message has_image clk) as (Ht & _).
  rewrite Ht.
  destruct (locked_step self (candidate_tier message has_image) (now clk))
    as [(_ & -> & _)
       | (_ & _ & _ & [[_ ->] | [(_ & _ & ->) | (_ & _ & _ & ->)]])];
    cbn [adm_tier]; try reflexivity;
    unfold candidate_tier; apply select_model_not_empty.
Qed.

Lemma fallback_literals_pass flag :
  soft_moderate TIMEOUT_TEXT flag
  = mkModerationResult TIMEOUT_TEXT TIMEOUT_TEXT false
  /\ soft_moderate UNAVAILABLE_TEXT flag
     = mkModerationResult UNAVAILABLE_TEXT UNAVAILABLE_TEXT false.
Proof. destruct flag; split; vm_compute; reflexivity. Qed.

End EndpointLog.

(** What the endpoint logs and keeps. The guard is left as the routing
    call at the start of the stream left it, however the wait ends: a
    strong assignment that times out still counts towards both limits.
    When the orchestrator returns, the log entry carries the decision
    made at the start and the fault draw as [fallback_used]. When the wait
    times out or raises, the entry is the synthetic one: the intent of the
    text alone (an attachment is forgotten), tier standard, not
    downgraded (even if the decision had been), the reason of the failure,
    [fallback_used] set, and the fixed fallback sentence is streamed
    unmoderated. *)
Theorem endpoint_log_entry :
  forall payload_message ic AMO clk draw timeout outcome,
    let run := chat_stream payload_message ic AMO clk draw outcome timeout in
    let routed :=
      route AMO (PyStr.strip payload_message) (truthy ic) (gen_route_clock clk) in
    let log := run_log run in
    run_guard run = snd routed
    /\ match outcome with
       | Returned =>
           log_intent log = intent (fst routed)
           /\ log_model_tier log = model_tier (fst routed)
           /\ log_downgraded log = downgraded (fst routed)
           /\ log_reason log = reason (fst routed)
           /\ log_fallback_used log = draw
       | TimedOut =>
           log_intent log = detect_intent payload_message
           /\ log_model_tier log = TIER_STANDARD
           /\ log_downgraded log = false
           /\ log_reason log = Some "provider_timeout"
           /\ log_fallback_used log = true
           /\ run_moderated run
              = mkModerationResult TIMEOUT_TEXT TIMEOUT_TEXT false
       | Raised =>
           log_intent log = detect_intent payload_message
           /\ log_model_tier log = TIER_STANDARD
           /\ log_downgraded log = false
           /\ log_reason log = Some "provider_failure"
           /\ log_fallback_used log = true
           /\ run_moderated run
              = mkModerationResult UNAVAILABLE_TEXT UNAVAILABLE_TEXT false
       end.
Proof.
  intros payload_message ic AMO clk draw timeout outcome run routed log.
  pose proof (route_tier_not_empty AMO (PyStr.strip payload_message) (truthy ic)
                (gen_route_clock clk)) as Hne.
  fold routed in Hne.
  unfold log, run, chat_stream, event_stream. fold routed.
  destruct routed as [route0 AMO1]. cbn [fst snd] in *.
  destruct outcome; cbn [await_response].
  - destruct (generate_text_from_provider draw (PyStr.strip payload_message) ic
                AMO1 (Some route0) clk) as (_ & _ & Hf & _).
    cbn [run_guard run_log log_intent log_model_tier log_downgraded log_reason
         log_fallback_used].
    rewrite Hne, Hf. repeat split.
  - destruct (fallback_literals_pass
                (is_aggressive_context (PyStr.strip payload_message))) as [-> _].
    cbn. rewrite detect_intent_strip. repeat split.
  - destruct (fallback_literals_pass
                (is_aggressive_context (PyStr.strip payload_message))) as [_ ->].
    cbn. rewrite detect_intent_strip. repeat split.
Qed.

Section EndpointModeration.

Lemma soft_moderate_flag text flag :
  moderated (soft_moderate text flag) = true -> flag = true.
Proof.
  unfold soft_moderate. destruct flag; [reflexivity |].
  rewrite orb_true_r. discriminate.
Qed.

End EndpointModeration.

(** The endpoint never masks a reply unless the user's own message, as
    trimmed, contains an offensive term as a whole word; for any other
    message the text generated is streamed and saved as it is, and the
    done frame carries no raw text. *)
Theorem reply_masked_only_for_offensive_message :
  forall payload_message ic AMO clk draw outcome timeout,
    let run := chat_stream payload_message ic AMO clk draw outcome timeout in
    (moderated (run_moderated run) = true ->
     contains_keyword TERM_PATTERN (PyStr.strip payload_message))
    /\ (~ contains_keyword TERM_PATTERN (PyStr.strip payload_message) ->
        display_text (run_moderated run) = run_saved run
        /\ moderated (run_moderated run) = false
        /\ last (run_frames run) (Chunk EmptyString)
           = Done false (run_saved run) None).
Proof.
  intros payload_message ic AMO clk draw outcome timeout run.
  destruct (chat_stream_unfold payload_message ic AMO clk draw outcome timeout)
    as (Hf & _ & Hm & Hsaved & _).
  fold run in Hf, Hm, Hsaved. rewrite Hf, Hm, Hsaved.
  set (awaited := await_response _ _ _ _ _ _ _ _).
  set (flag := is_aggressive_context (PyStr.strip payload_message)).
  assert (Hflag : flag = true ->
                  contains_keyword TERM_PATTERN (PyStr.strip payload_message)).
  { intro H. apply (search_spec TERM_PATTERN _ eq_refl).
    apply aggressive_needs_offensive. exact H. }
  split.
  - intro H. apply Hflag. exact (soft_moderate_flag _ _ H).
  - intro Hno.
    assert (Hoff : flag = false).
    { destruct flag; [exfalso; apply Hno; apply Hflag; reflexivity | reflexivity]. }
    rewrite Hoff. unfold soft_moderate. rewrite orb_true_r.
    cbn [display_text original_text moderated].
    repeat split.
    unfold yielded_frames. cbn [display_text original_text moderated].
    rewrite app_assoc. apply last_last.
Qed.

Lemma reply_masked_only_for_offensive_message_witness :
  let run := chat_stream "  you are STUPID, explain this  " None default_optimizer
               genclock0 false Returned 20 in
  moderated (run_moderated run) = true
  /\ contains_keyword TERM_PATTERN (PyStr.strip "  you are STUPID, explain this  ")
  /\ display_text (run_moderated run)
     = "Ghost is active. Standard assistance mode enabled. Focus: "
       ++ dquote ++ "you are [...], explain this" ++ dquote ++ ".".
Proof.
  intro run.
  assert (Hm : moderated (run_moderated run) = true) by (vm_compute; reflexivity).
  split; [exact Hm |].
  split; [| vm_compute; reflexivity].
  destruct (reply_masked_only_for_offensive_message
              "  you are STUPID, explain this  " None default_optimizer
              genclock0 false Returned 20) as [H _].
  exact (H Hm).
Defined.

(** Only the truth value of the image context matters: [None], an empty
    mapping and any two non-empty mappings give the same envelope and the
    same guard, the provider calls differing in nothing but the context
    they carry. *)
Theorem image_context_matters_by_truth_value :
  forall draw message ic1 ic2 optimizer route_arg clk,
    truthy ic1 = truthy ic2 ->
    fst (generate_ai_response draw message ic1 optimizer route_arg clk)
    = fst (generate_ai_response draw message ic2 optimizer route_arg clk).
Proof.
  intros draw message ic1 ic2 optimizer route_arg clk Ht.
  unfold generate_ai_response, generate_ai_response_with. rewrite Ht.
  destruct (match route_arg with
            | Some r => (r, optimizer)
            | None => route optimizer message (truthy ic2) (gen_route_clock clk)
            end) as [sel opt'].
  assert (Hp : forall tier stable,
            _provider_generate draw
              (mkProviderCall tier message ic1 (intent sel) stable)
            = _provider_generate draw
                (mkProviderCall tier message ic2 (intent sel) stable)).
  { intros tier stable. unfold _provider_generate, body_of.
    cbn [call_force_stable call_message call_intent call_image_context].
    rewrite Ht. reflexivity. }
  unfold attempt. rewrite !Hp.
  destruct (_provider_generate draw
              (mkProviderCall (model_tier sel) message ic2 (intent sel) false));
    [reflexivity |].
  destruct (_provider_generate draw
              (mkProviderCall TIER_STANDARD message ic2 (intent sel) true));
    reflexivity.
Qed.

Lemma image_context_matters_by_truth_value_witness :
  truthy (Some []) = truthy None
  /\ fst (generate_ai_response false "look at this" (Some []) default_optimizer
            None genclock0)
     = fst (generate_ai_response false "look at this" None default_optimizer
              None genclock0).
Proof.
  split; [reflexivity |].
  apply (image_context_matters_by_truth_value false "look at this" (Some []) None
           default_optimizer None genclock0).
  reflexivity.
Defined.
